(** * A shallow embedding of the contact-book bot of [Assignment1.py]

    The bot reads a line, splits it into a command and its arguments,
    looks the command up in a table of handlers and runs the handler on
    a dictionary of contacts that belongs to the class [CliHelperBot].

    A Python [str] is a sequence of Unicode code points, so text is a list
    of code points here.  [str.split] separates on every code point that
    Python counts as white space.  [str.casefold] lowers the letters
    [A]-[Z]; for the code points above 127 it reads the case folding of
    the Unicode database, which is no part of this program and is a
    parameter, [fold_table], of the functions that fold.

    A Python [dict] keeps its keys in insertion order, and [all] prints
    in that order, so the dictionary is an association list. *)

From Stdlib Require Import String Ascii List Bool Arith NArith Lia.
From Stdlib Require Import Decimal DecimalString.
Import ListNotations.

#[local] Open Scope N_scope.
#[local] Open Scope nat_scope.
#[local] Open Scope list_scope.

(** ** Text *)

Module Text.

(** A code point. *)
Definition char : Type := N.

(** A Python [str]. *)
Definition str : Type := list char.

(** The [str] of a literal of the source, all of which are ASCII. *)
Definition txt (s : string) : str := map N_of_ascii (list_ascii_of_string s).
Arguments txt s%_string.

(** The line feed, written [\n] in the source. *)
Definition nl : str := [10%N].

(** The code points on which [str.split()] separates: tab, line feed,
    vertical tab, form feed, carriage return, the separators 28-31, the
    blank, and the white space of Unicode above them: U+0085, U+00A0,
    U+1680, U+2000 to U+200A, U+2028, U+2029, U+202F, U+205F, U+3000. *)
Definition is_space (c : char) : bool :=
  ((9 <=? c) && (c <=? 13)
   || (28 <=? c) && (c <=? 32)
   || (c =? 0x85) || (c =? 0xA0) || (c =? 0x1680)
   || (0x2000 <=? c) && (c <=? 0x200A)
   || (c =? 0x2028) || (c =? 0x2029) || (c =? 0x202F)
   || (c =? 0x205F) || (c =? 0x3000))%N.

Definition all_space (s : str) : bool := forallb is_space s.

Definition no_space (s : str) : bool := forallb (fun c => negb (is_space c)) s.

(** A token is what [split] produces: not empty, free of white space. *)
Definition token (s : str) : Prop := s <> [] /\ no_space s = true.

(** The word collected so far is emitted unless it is empty. *)
Definition flush (cur : str) : list str :=
  match cur with
  | [] => []
  | _ => [cur]
  end.

(** [str.split()] without arguments: runs of white space separate the
    words, and no empty word is produced.  [cur] is the word being
    collected while the line is scanned left to right. *)
Fixpoint split_from (cur s : str) : list str :=
  match s with
  | [] => flush cur
  | c :: t =>
      if is_space c then flush cur ++ split_from [] t
      else split_from (cur ++ [c]) t
  end.

Definition split (s : str) : list str := split_from [] s.

(** [sep.join(words)]. *)
Fixpoint join (sep : str) (words : list str) : str :=
  match words with
  | [] => []
  | [w] => w
  | w :: ws => w ++ sep ++ join sep ws
  end.

(** Lower case of an ASCII code point. *)
Definition ascii_lower (c : char) : char :=
  if ((0x41 <=? c) && (c <=? 0x5A))%N then (c + 0x20)%N else c.

Section Casefold.

(** The full case folding of the code points above 127, as the
    interpreter has it in its Unicode database: one code point folds to
    one, two or three. *)
Variable fold_table : char -> str.

Definition fold_char (c : char) : str :=
  if (c <? 0x80)%N then [ascii_lower c] else fold_table c.

(** [str.casefold]: every code point is folded by itself. *)
Definition casefold (s : str) : str := flat_map fold_char s.

End Casefold.

(** [a == b] for texts. *)
Fixpoint str_eqb (a b : str) : bool :=
  match a, b with
  | [], [] => true
  | x :: a', y :: b' => (x =? y)%N && str_eqb a' b'
  | _, _ => false
  end.

(** [x in [a; b; ...]] for texts. *)
Definition str_in (x : str) (l : list str) : bool :=
  existsb (str_eqb x) l.

(** [hay.startswith(needle)]. *)
Fixpoint starts_with (needle hay : str) : bool :=
  match needle, hay with
  | [], _ => true
  | _ :: _, [] => false
  | x :: n', y :: h' => (x =? y)%N && starts_with n' h'
  end.

(** [needle in hay] for texts: [needle] occurs somewhere in [hay]. *)
Fixpoint str_contains (needle hay : str) : bool :=
  starts_with needle hay
  || match hay with
     | [] => false
     | _ :: t => str_contains needle t
     end.

(** Decimal text of a number, as [str(n)]. *)
Definition str_of_nat (n : nat) : str :=
  txt (NilEmpty.string_of_uint (Nat.to_uint n)).

End Text.
Import Text.
(** ** The dictionary of contacts

    [_users_cache] is a Python [dict] from user name to phone.  The
    pairs are kept in the order in which their keys were first
    inserted; assigning to a key that is present replaces the value in
    place. *)

Module Dict.

Definition dict : Type := list (str * str).

(** [{}] *)
Definition empty : dict := [].

(** [d[k]]; [None] stands for [KeyError]. *)
Fixpoint getitem (d : dict) (k : str) : option str :=
  match d with
  | [] => None
  | (k', v) :: t => if str_eqb k k' then Some v else getitem t k
  end.

(** [k in d] *)
Definition contains (d : dict) (k : str) : bool :=
  match getitem d k with
  | Some _ => true
  | None => false
  end.

(** [d[k] = v] *)
Fixpoint setitem (d : dict) (k v : str) : dict :=
  match d with
  | [] => [(k, v)]
  | (k', v') :: t =>
      if str_eqb k k' then (k, v) :: t else (k', v') :: setitem t k v
  end.

(** [d.items()] *)
Definition items (d : dict) : list (str * str) := d.

Definition keys (d : dict) : list str := map fst d.

(** No key occurs twice: what every Python [dict] satisfies. *)
Definition well_formed (d : dict) : Prop := NoDup (keys d).

End Dict.
Import Dict.

(** ** Exceptions and the state of the class *)

(** The exception classes of the module (lines 7 to 20) and those the
    interpreter itself raises in this program.  All are subclasses of
    [Exception]; none of the built-in ones is a subclass of
    [BaseCliHelperException]. *)
Inductive exc_class : Type :=
| CommandNotSupported
| CliHelperSigStop
| CommandOperationalError
| ValueError
| TypeError
| KeyError
| EOFError.

(** What running a piece of code ends in: a value, or an exception of some
    class with the text that [str(e)] gives. *)
Inductive outcome (A : Type) : Type :=
| Return (a : A)
| Raise (cls : exc_class) (msg : str).
Arguments Return {A} a.
Arguments Raise {A} cls msg.

(** Code that reads and writes the class attribute
    [CliHelperBot._users_cache] (line 37) and may raise.  A write made
    before an exception is raised stays. *)
Definition M (A : Type) : Type := dict -> dict * outcome A.

Definition ret {A} (a : A) : M A := fun cache => (cache, Return a).

Definition raise {A} (cls : exc_class) (msg : str) : M A :=
  fun cache => (cache, Raise cls msg).

Definition bind {A B} (c : M A) (k : A -> M B) : M B :=
  fun cache =>
    match c cache with
    | (cache', Return a) => k a cache'
    | (cache', Raise cls msg) => (cache', Raise cls msg)
    end.

Notation "x <- c ;; k" := (bind c (fun x => k))
  (at level 61, c at next level, right associativity).

(** Code that raises or returns without touching the state. *)
Definition lift {A} (r : outcome A) : M A := fun cache => (cache, r).

(** Reading the attribute [_users_cache]. *)
Definition users_cache : M dict := fun cache => (cache, Return cache).

(** The decorator [input_error] (lines 23 to 33): the two classes named
    in the [except] clause are turned into the returned text
    [f"{error_msg_base}: {e}"]; every other outcome passes through. *)
Definition input_error (error_msg_base : str) (func : M str) : M str :=
  fun cache =>
    match func cache with
    | (cache', Raise CommandOperationalError e)
    | (cache', Raise CommandNotSupported e) =>
        (cache', Return (error_msg_base ++ txt ": " ++ e))
    | r => r
    end.

(** ** The bot *)

(** The methods a command can be bound to. *)
Inductive method : Type :=
| m_stop
| m_say_hello
| m_add_contact
| m_change_contact
| m_get_contact
| m_print_all_contacts.

(** An instance holds what [__init__] assigns to [self]: the table of
    commands.  The contacts are not in it. *)
Record CliHelperBot : Type := {
  supported_commands : list (str * method)
}.

(** [CliHelperBot()]: lines 39 to 48. *)
Definition __init__ : M CliHelperBot :=
  ret {| supported_commands :=
           [ (txt "close", m_stop);
             (txt "exit", m_stop);
             (txt "hello", m_say_hello);
             (txt "add", m_add_contact);
             (txt "change", m_change_contact);
             (txt "phone", m_get_contact);
             (txt "all", m_print_all_contacts) ] |}.

(** Lookup in the table of commands. *)
Fixpoint table_get (t : list (str * method)) (k : str) : option method :=
  match t with
  | [] => None
  | (k', m) :: t' => if str_eqb k k' then Some m else table_get t' k
  end.

(** *** Methods

  An instance method takes [self] first, a static method does not. *)

(** Lines 50 to 59. *)
Definition stop (self : CliHelperBot) (message : str) : M str :=
  raise CliHelperSigStop message.

(** Lines 61 to 69.  Unpacking [command, *args] needs one word at least.
    [fold_table] is the case folding that [casefold] takes from the
    Unicode database for the code points above 127. *)
Definition parse_input (fold_table : char -> str) (user_input : str)
  : outcome (str * list str) :=
  match split user_input with
  | [] => Raise ValueError
            (txt "not enough values to unpack (expected at least 1, got 0)")
  | command :: args =>
      let command := casefold fold_table command in
      let args :=
        if str_in command [txt "close"; txt "exit"]
        then [txt "Command '" ++ command ++ txt "' received. Good buy!"]
        else args in
      Return (command, args)
  end.

(** The warning of [hello] and [all]: lines 76 to 79 and 193 to 196. *)
Definition unexpected_args (args : list str) : str :=
  txt "Warning: Command doesn't expect any arguments. "
  ++ txt "Received: " ++ join (txt " ") args ++ nl.

(** Lines 71 to 81. *)
Definition say_hello (args : list str) : str :=
  let command_output := [] in
  let command_output :=
    match args with
    | [] => command_output
    | _ => command_output ++ unexpected_args args
    end in
  command_output ++ txt "How can I help you?".

(** Lines 141 to 152. *)
Definition _update_number (self : CliHelperBot) (username phone : str) : M bool :=
  fun cache => (setitem cache username phone, Return true).

(** The text raised by [add] and [change] when [len(args) != 2]. *)
Definition two_arguments_expected (args : list str) : str :=
  txt "command expects an input of two arguments: username and phone, separated by a space. "
  ++ txt "Received: " ++ join (txt " ") args.

(** The text raised by [phone] when [len(args) != 1]. *)
Definition one_argument_expected (args : list str) : str :=
  txt "command expects an input of one argument: username. "
  ++ txt "Received: " ++ join (txt " ") args.

(** Lines 96 to 110, the function under the decorator.  The first
    branch is [len(args) == 2] with [username, phone = args]. *)
Definition add_contact_body (self : CliHelperBot) (args : list str) : M str :=
  match args with
  | [username; phone] =>
      cache <- users_cache ;;
      if Dict.contains cache username then
        raise CommandOperationalError
          (txt "user with username " ++ username ++ txt " already exist. "
           ++ txt "If you want to update number, please use 'change' command.")
      else
        _ <- _update_number self username phone ;;
        ret (txt "Contact " ++ username ++ txt " created with phone: " ++ phone ++ txt ".")
  | _ => raise CommandOperationalError (two_arguments_expected args)
  end.

(** Line 83. *)
Definition add_contact (self : CliHelperBot) (args : list str) : M str :=
  input_error (txt "Command 'add' failed") (add_contact_body self args).

(** Lines 125 to 139, the function under the decorator. *)
Definition change_contact_body (self : CliHelperBot) (args : list str) : M str :=
  match args with
  | [username; phone] =>
      cache <- users_cache ;;
      if negb (Dict.contains cache username) then
        raise CommandOperationalError
          (txt "user with username " ++ username ++ txt " doesn't exist. "
           ++ txt "If you want to add number, please use 'add' command.")
      else
        _ <- _update_number self username phone ;;
        ret (txt "Contact " ++ username ++ txt " updated with phone: " ++ phone ++ txt ".")
  | _ => raise CommandOperationalError (two_arguments_expected args)
  end.

(** Line 112. *)
Definition change_contact (self : CliHelperBot) (args : list str) : M str :=
  input_error (txt "Command 'update' failed") (change_contact_body self args).

(** Lines 204 to 207. *)
Definition _print_user_phone (username phone : str) : str :=
  txt "User " ++ username ++ txt " phone: " ++ phone.

(** Lines 167 to 180, the function under the decorator.  The first
    branch is [len(args) == 1] with [username = args[0]]. *)
Definition get_contact_body (self : CliHelperBot) (args : list str) : M str :=
  match args with
  | [username] =>
      cache <- users_cache ;;
      if negb (Dict.contains cache username) then
        raise CommandOperationalError
          (txt "user with username " ++ username
           ++ txt " doesn't exist. Try another username.")
      else
        match getitem cache username with
        | Some user_phone =>
            ret (txt "Record found: " ++ nl ++ _print_user_phone username user_phone)
        | None => raise KeyError (txt "'" ++ username ++ txt "'")
        end
  | _ => raise CommandOperationalError (one_argument_expected args)
  end.

(** Line 154. *)
Definition get_contact (self : CliHelperBot) (args : list str) : M str :=
  input_error (txt "Command 'phone' failed") (get_contact_body self args).

(** The loop of lines 199 and 200 over [items()]. *)
Fixpoint append_records (command_output : str)
         (records : list (str * str)) : str :=
  match records with
  | [] => command_output
  | (username, phone) :: rest =>
      append_records
        (command_output ++ nl ++ _print_user_phone username phone) rest
  end.

(** Lines 182 to 202. *)
Definition print_all_contacts (self : CliHelperBot) (args : list str) : M str :=
  let command_output := [] in
  let command_output :=
    match args with
    | [] => command_output
    | _ => command_output ++ unexpected_args args
    end in
  let command_output := command_output ++ txt "All Records: " ++ nl in
  cache <- users_cache ;;
  ret (append_records command_output (items cache)).

(** The call of [command_handler] on the unpacked [args] in line 215, for
    each bound method.  [stop] has one parameter besides [self], the
    others take any number of arguments. *)
Definition call (self : CliHelperBot) (command_handler : method) (args : list str) : M str :=
  match command_handler with
  | m_stop =>
      match args with
      | [message] => stop self message
      | [] => raise TypeError
                (txt "CliHelperBot.stop() missing 1 required positional argument: 'message'")
      | _ => raise TypeError
               (txt "CliHelperBot.stop() takes 2 positional arguments but "
                ++ str_of_nat (S (length args)) ++ txt " were given")
      end
  | m_say_hello => ret (say_hello args)
  | m_add_contact => add_contact self args
  | m_change_contact => change_contact self args
  | m_get_contact => get_contact self args
  | m_print_all_contacts => print_all_contacts self args
  end.

(** Lines 211 to 215, the function under the decorator. *)
Definition execute_command_body (self : CliHelperBot) (command : str) (args : list str) : M str :=
  match table_get (supported_commands self) command with
  | None =>
      raise CommandNotSupported (txt "command '" ++ command ++ txt "' is not supported!")
  | Some command_handler => call self command_handler args
  end.

(** Line 209. *)
Definition execute_command (self : CliHelperBot) (command : str) (args : list str) : M str :=
  input_error (txt "Command execution failed") (execute_command_body self command args).

(** *** The run loop *)

(** What the console shows: the prompt written by [input], a line written
    by [print]. *)
Inductive event : Type :=
| Prompt (text : str)
| Print (text : str).

(** How [main] ends: the [break] of line 231, or the exception that
    line 238 raises again. *)
Inductive exit_status : Type :=
| Stopped
| Crashed (cls : exc_class) (msg : str).

Record run : Type := {
  console : list event;
  status : exit_status;
  cache_after : dict
}.

Definition prompt : str :=
  txt "Enter a command with arguments separated with a ' ' character: ".

(** Lines 222 to 227: what one turn of the loop prints when the line has
    been read. *)
Definition turn (fold_table : char -> str) (self : CliHelperBot) (user_input : str)
  : M str :=
  parsed <- lift (parse_input fold_table user_input) ;;
  let '(command, args) := parsed in
  command_output <- execute_command self command args ;;
  ret (txt "Command '" ++ command ++ txt "' executed successfully. Result is:"
       ++ nl ++ command_output).

(** Lines 234 to 237. *)
Definition unknown_exception (e : str) : str :=
  txt "Unknown exception was encountered during execution: " ++ e
  ++ txt "The bot will stop ...".

(** Lines 217 to 238.  [stdin] holds the lines [input] will return;
    when it has no more, [input] raises [EOFError]. *)
Fixpoint main (fold_table : char -> str) (self : CliHelperBot)
         (stdin : list str) (cache : dict) : run :=
  match stdin with
  | [] =>
      let e := txt "EOF when reading a line" in
      {| console := [Prompt prompt; Print (unknown_exception e)];
         status := Crashed EOFError e;
         cache_after := cache |}
  | user_input :: stdin' =>
      match turn fold_table self user_input cache with
      | (cache', Return text) =>
          let r := main fold_table self stdin' cache' in
          {| console := Prompt prompt :: Print text :: console r;
             status := status r;
             cache_after := cache_after r |}
      | (cache', Raise CliHelperSigStop e) =>
          {| console := [Prompt prompt; Print e];
             status := Stopped;
             cache_after := cache' |}
      | (cache', Raise cls e) =>
          {| console := [Prompt prompt; Print (unknown_exception e)];
             status := Crashed cls e;
             cache_after := cache' |}
      end
  end.

(** The bot of line 242, made with the class attribute still empty. *)
Definition cli_helper : CliHelperBot :=
  match __init__ Dict.empty with
  | (_, Return bot) => bot
  | (_, Raise _ _) => {| supported_commands := [] |}
  end.

(** ** Objects

    The class statement (line 37) makes one dictionary and binds the name
    [_users_cache] of the class to it.  An instance has names of its own,
    those that [__init__] assigns to [self].  A name read through an
    instance is taken from the instance when it has the name, and from
    the class when it has not; [self._users_cache[k] = v] writes into the
    dictionary that the name is read to. *)

(** What a name is bound to: a dictionary of contacts, by its place among
    the dictionaries that exist, or a table of commands. *)
Inductive value : Type :=
| DictRef (loc : nat)
| Table (t : list (str * method)).

Definition namespace : Type := list (string * value).

Fixpoint lookup (ns : namespace) (name : string) : option value :=
  match ns with
  | [] => None
  | (name', v) :: ns' => if String.eqb name name' then Some v else lookup ns' name
  end.
Arguments lookup ns name%_string.

Record world : Type := {
  dicts : list dict;
  class_namespace : namespace;
  instances : list namespace
}.

(** The objects after the class statement: line 37. *)
Definition class_body : world :=
  {| dicts := [Dict.empty];
     class_namespace := [("_users_cache"%string, DictRef 0)];
     instances := [] |}.

(** [obj.name] for an object with the names [ns]. *)
Definition getattr (w : world) (ns : namespace) (name : string) : option value :=
  match lookup ns name with
  | Some v => Some v
  | None => lookup (class_namespace w) name
  end.
Arguments getattr w ns name%_string.

Fixpoint store {A : Type} (l : list A) (loc : nat) (x : A) : list A :=
  match l, loc with
  | [], _ => []
  | _ :: t, 0 => x :: t
  | y :: t, S loc' => y :: store t loc' x
  end.

(** Code of a method run for the object with the names [ns]: it reads and
    writes the dictionary that [self._users_cache] is.  [None] stands for
    the [AttributeError] of a name that nobody has. *)
Definition run_method {A : Type} (w : world) (ns : namespace) (code : M A)
  : option (world * outcome A) :=
  match getattr w ns "_users_cache" with
  | Some (DictRef loc) =>
      match nth_error (dicts w) loc with
      | Some cache =>
          let '(cache', r) := code cache in
          Some ({| dicts := store (dicts w) loc cache';
                   class_namespace := class_namespace w;
                   instances := instances w |}, r)
      | None => None
      end
  | _ => None
  end.

(** [CliHelperBot()]: a new object without names, on which [__init__]
    runs and binds [supported_commands] (lines 39 to 48). *)
Definition new_instance (w : world) : option world :=
  match run_method w [] __init__ with
  | Some (w', Return bot) =>
      Some {| dicts := dicts w';
              class_namespace := class_namespace w';
              instances :=
                instances w'
                ++ [[("supported_commands"%string, Table (supported_commands bot))]] |}
  | _ => None
  end.

(** [bot.execute_command(command, args)] for the instance number [i]. *)
Definition execute_command_on (w : world) (i : nat) (command : str) (args : list str)
  : option (world * outcome str) :=
  match nth_error (instances w) i with
  | Some ns =>
      match getattr w ns "supported_commands" with
      | Some (Table t) =>
          run_method w ns (execute_command {| supported_commands := t |} command args)
      | _ => None
      end
  | None => None
  end.

(** What a program does with the class: it makes an instance, or runs a
    command through an instance it has made. *)
Inductive action : Type :=
| New
| Command (i : nat) (command : str) (args : list str).

(** An action that ends in an error leaves the objects as they are. *)
Definition act (w : world) (a : action) : world :=
  match a with
  | New =>
      match new_instance w with
      | Some w' => w'
      | None => w
      end
  | Command i command args =>
      match execute_command_on w i command args with
      | Some (w', _) => w'
      | None => w
      end
  end.

Definition run_actions (actions : list action) : world :=
  fold_left act actions class_body.

(** ** Auxiliary notions of the statements *)

(** [rest] does not continue the word before it. *)
Definition word_end (rest : str) : bool :=
  match rest with
  | [] => true
  | c :: _ => is_space c
  end.

(** A separation and the word after it. *)
Definition gap (g : str * str) : Prop :=
  (fst g <> [] /\ all_space (fst g) = true) /\ token (snd g).

(** The words of a line after the first, each behind its separation. *)
Definition gaps (items : list (str * str)) : str :=
  flat_map (fun g => fst g ++ snd g) items.

(** An instance that the constructor made. *)
Definition constructed (self : CliHelperBot) : Prop :=
  exists cache, __init__ cache = (cache, Return self).

(** The names in the table of commands. *)
Definition command_names : list str :=
  [txt "close"; txt "exit"; txt "hello"; txt "add"; txt "change";
   txt "phone"; txt "all"].

(** The text that replaces the arguments of [close] and [exit]. *)
Definition farewell (command : str) : str :=
  txt "Command '" ++ command ++ txt "' received. Good buy!".

(** One line per pair, each after a line feed, in the order of the pairs. *)
Definition record_lines (records : list (str * str)) : str :=
  join [] (map (fun r => nl ++ txt "User " ++ fst r ++ txt " phone: " ++ snd r)
               records).

(** How [main] ends on given lines, read off the lines alone: at the first
    line without a word, at the first line whose first word is [close] or
    [exit] when case-folded, or when the lines are used up. *)
Fixpoint expected_status (fold_table : char -> str) (stdin : list str) : exit_status :=
  match stdin with
  | [] => Crashed EOFError (txt "EOF when reading a line")
  | user_input :: stdin' =>
      match split user_input with
      | [] => Crashed ValueError
                (txt "not enough values to unpack (expected at least 1, got 0)")
      | command :: _ =>
          if str_in (casefold fold_table command) [txt "close"; txt "exit"]
          then Stopped
          else expected_status fold_table stdin'
      end
  end.

(** The number of prompts [main] writes on given lines. *)
Fixpoint expected_prompts (fold_table : char -> str) (stdin : list str) : nat :=
  match stdin with
  | [] => 1
  | user_input :: stdin' =>
      match split user_input with
      | [] => 1
      | command :: _ =>
          if str_in (casefold fold_table command) [txt "close"; txt "exit"]
          then 1
          else S (expected_prompts fold_table stdin')
      end
  end.

(** A console on which every prompt is followed by one printed text. *)
Definition prompted (texts : list str) : list event :=
  flat_map (fun text => [Prompt prompt; Print text]) texts.

(** The objects are as the class statement and the constructor leave
    them: one dictionary, which the name [_users_cache] of the class is
    bound to, and instances whose only name of their own is
    [supported_commands]. *)
Definition one_dictionary (w : world) : Prop :=
  (exists cache, dicts w = [cache])
  /\ class_namespace w = [("_users_cache"%string, DictRef 0)]
  /\ Forall (fun ns =>
               ns = [("supported_commands"%string,
                      Table (supported_commands cli_helper))])
            (instances w).

(** * Theorems *)

(** ** Facts about text *)

Section TextFacts.

Lemma append_nil_r (s : str) : s ++ [] = s.
Proof. apply app_nil_r. Qed.

Lemma append_assoc (a b c : str) : (a ++ b) ++ c = a ++ (b ++ c).
Proof. symmetry. apply app_assoc. Qed.

Lemma str_eqb_spec (a b : str) : reflect (a = b) (str_eqb a b).
Proof.
  revert b. induction a as [|x a IH]; intros [|y b]; simpl;
    try (constructor; congruence).
  destruct (N.eqb_spec x y) as [->|ne]; simpl.
  - destruct (IH b) as [->|ne]; constructor; congruence.
  - constructor. congruence.
Qed.

Lemma str_eqb_refl (a : str) : str_eqb a a = true.
Proof. now destruct (str_eqb_spec a a). Qed.

Lemma prefix_append (a b : str) : starts_with a (a ++ b) = true.
Proof.
  induction a as [|x a IH]; simpl; [reflexivity|].
  now rewrite N.eqb_refl.
Qed.

Lemma prefix_append_l (n a b : str) :
  starts_with n a = true -> starts_with n (a ++ b) = true.
Proof.
  revert a. induction n as [|x n IH]; intros a H; [reflexivity|].
  destruct a as [|y a]; simpl in *; [discriminate|].
  apply andb_true_iff in H as [Hx Hn]. rewrite Hx. now apply IH.
Qed.

Lemma str_contains_prefix (n hay : str) :
  starts_with n hay = true -> str_contains n hay = true.
Proof. intros H. destruct hay; simpl in *; rewrite H; reflexivity. Qed.

Lemma str_contains_refl (s : str) : str_contains s s = true.
Proof.
  apply str_contains_prefix. rewrite <- (append_nil_r s) at 2.
  apply prefix_append.
Qed.

(** What occurs in a part occurs in the whole. *)
Lemma str_contains_app_r (n a b : str) :
  str_contains n b = true -> str_contains n (a ++ b) = true.
Proof.
  intros H. induction a as [|c a IH]; simpl; [exact H|].
  rewrite IH. apply orb_true_r.
Qed.

Lemma str_contains_app_l (n a b : str) :
  str_contains n a = true -> str_contains n (a ++ b) = true.
Proof.
  induction a as [|c a IH]; intros H.
  - simpl in H. rewrite orb_false_r in H.
    apply str_contains_prefix. now apply (prefix_append_l n [] b).
  - change ((c :: a) ++ b) with (c :: (a ++ b)).
    cbn [str_contains] in *. apply orb_true_iff in H as [H|H].
    + apply (prefix_append_l _ _ b) in H.
      change ((c :: a) ++ b) with (c :: (a ++ b)) in H.
      now rewrite H.
    + rewrite IH by assumption. apply orb_true_r.
Qed.

(** Scanning a piece without white space only extends the current word. *)
Lemma split_from_word (w cur s : str) :
  no_space w = true -> split_from cur (w ++ s) = split_from (cur ++ w) s.
Proof.
  revert cur. induction w as [|c w IH]; intros cur H; simpl in *.
  - now rewrite append_nil_r.
  - apply andb_true_iff in H as [Hc Hw].
    apply negb_true_iff in Hc. rewrite Hc.
    rewrite IH by assumption. now rewrite append_assoc.
Qed.

(** Leading white space is skipped. *)
Lemma split_from_blank (ws s : str) :
  all_space ws = true -> split_from [] (ws ++ s) = split_from [] s.
Proof.
  induction ws as [|c ws IH]; intros H; simpl in *; [reflexivity|].
  apply andb_true_iff in H as [Hc Hw]. rewrite Hc. simpl. now apply IH.
Qed.

(** The first word of a line and the words after it. *)
Lemma split_cons (ws w rest : str) :
  all_space ws = true -> token w -> word_end rest = true ->
  split (ws ++ w ++ rest) = w :: split rest.
Proof.
  intros Hws [Hne Hw] Hrest. unfold split.
  rewrite split_from_blank by assumption.
  rewrite split_from_word by assumption. simpl.
  destruct rest as [|c rest]; simpl in *.
  - destruct w; [now elim Hne | reflexivity].
  - rewrite Hrest. destruct w; [now elim Hne | reflexivity].
Qed.

(** Words joined by single blanks are split into the same words. *)
Lemma split_join (words : list str) :
  Forall token words -> split (join (txt " ") words) = words.
Proof.
  induction 1 as [|w ws Hw Hws IH]; [reflexivity|].
  destruct ws as [|w' ws].
  - simpl. rewrite <- (append_nil_r w) at 1.
    now apply (split_cons [] w []).
  - change (join (txt " ") (w :: w' :: ws))
      with ([] ++ w ++ txt " " ++ join (txt " ") (w' :: ws)).
    rewrite split_cons by easy.
    f_equal. rewrite <- IH at 2.
    apply (split_from_blank (txt " ") (join (txt " ") (w' :: ws))). reflexivity.
Qed.

Lemma split_from_nil (cur s : str) :
  split_from cur s = [] <-> cur = [] /\ all_space s = true.
Proof.
  revert cur. induction s as [|c s IH]; intros cur; simpl.
  - destruct cur; simpl; split; try easy.
  - destruct (is_space c) eqn:Hc; simpl.
    + split.
      * intros H. apply app_eq_nil in H as [Hf Hs].
        apply IH in Hs as [_ Hs]. destruct cur; [easy | discriminate].
      * intros [-> Hs]. simpl. apply IH. easy.
    + split.
      * intros H. apply IH in H as [H _]. destruct cur; discriminate.
      * intros [_ H]. discriminate.
Qed.

(** [split] finds no word exactly in the lines made of white space. *)
Lemma split_nil (s : str) : split s = [] <-> all_space s = true.
Proof.
  unfold split. rewrite split_from_nil. split; [now intros [_ H] | easy].
Qed.

Lemma no_space_app (a b : str) :
  no_space (a ++ b) = no_space a && no_space b.
Proof. apply forallb_app. Qed.

Lemma all_space_app (a b : str) :
  all_space (a ++ b) = all_space a && all_space b.
Proof. apply forallb_app. Qed.

Lemma split_from_tokens (cur s : str) :
  no_space cur = true -> Forall token (split_from cur s).
Proof.
  revert cur. induction s as [|c s IH]; intros cur Hcur; simpl.
  - destruct cur; simpl; constructor; [split; [discriminate | assumption] | constructor].
  - destruct (is_space c) eqn:Hc.
    + apply Forall_app. split; [|now apply IH].
      destruct cur; simpl; constructor;
        [split; [discriminate | assumption] | constructor].
    + apply IH. rewrite no_space_app, Hcur. simpl. now rewrite Hc.
Qed.

(** Every word [split] returns is a token. *)
Lemma split_tokens (s : str) : Forall token (split s).
Proof. now apply split_from_tokens. Qed.

(** The words of a line: those behind the separations, whatever white
    space ends the line. *)
Lemma split_gaps (items : list (str * str)) (trail : str) :
  Forall gap items -> all_space trail = true ->
  word_end (gaps items ++ trail) = true
  /\ split (gaps items ++ trail) = map snd items.
Proof.
  intros Hitems Htrail. induction Hitems as [|[sep w] items [[Hne Hsep] Hw] _ [IHe IHs]].
  - simpl. split; [now destruct trail as [|c t]; [|apply andb_true_iff in Htrail] |].
    now apply split_nil.
  - cbn [gaps flat_map fst snd map] in *. fold (gaps items).
    rewrite <- !app_assoc. split.
    + destruct sep as [|c sep]; [now elim Hne|].
      simpl in Hsep |- *. now apply andb_true_iff in Hsep.
    + rewrite split_cons by assumption. now rewrite IHs.
Qed.

(** Every line is white space, or has a first word behind white space
    and then words behind separations. *)
Lemma line_layout (line : str) :
  all_space line = true
  \/ exists lead w items trail,
       all_space lead = true /\ token w /\ Forall gap items
       /\ all_space trail = true
       /\ line = lead ++ w ++ gaps items ++ trail.
Proof.
  induction line as [|c line IH]; [now left|].
  destruct (is_space c) eqn:Hc.
  - destruct IH as [H|[lead [w [items [trail [Hl [Hw [Hi [Ht ->]]]]]]]]].
    + left. simpl. now rewrite Hc.
    + right. exists (c :: lead), w, items, trail.
      repeat split; try assumption; try apply Hw. simpl. now rewrite Hc.
  - right. destruct IH as [H|[lead [w [items [trail [Hl [Hw [Hi [Ht ->]]]]]]]]].
    + exists [], [c], [], line. repeat split; try easy.
      simpl. now rewrite Hc.
    + destruct lead as [|l lead].
      * exists [], (c :: w), items, trail.
        repeat split; try easy. simpl. rewrite Hc. apply Hw.
      * exists [], [c], ((l :: lead, w) :: items), trail.
        repeat split; try easy.
        -- simpl. now rewrite Hc.
        -- constructor; [|assumption]. repeat split; try easy; apply Hw.
        -- cbn [gaps flat_map fst snd]. fold (gaps items).
           now rewrite <- !app_assoc.
Qed.

End TextFacts.
(** ** Facts about the dictionary *)

Section DictFacts.

Lemma contains_getitem (d : dict) (k : str) :
  Dict.contains d k = true <-> exists v, getitem d k = Some v.
Proof.
  unfold Dict.contains. destruct (getitem d k) as [v|].
  - split; [now exists v | reflexivity].
  - split; [discriminate | now intros [v H]].
Qed.

Lemma getitem_contains (d : dict) (k v : str) :
  getitem d k = Some v -> Dict.contains d k = true.
Proof. intros H. apply contains_getitem. now exists v. Qed.

Lemma contains_keys (d : dict) (k : str) :
  Dict.contains d k = true <-> In k (keys d).
Proof.
  unfold Dict.contains. induction d as [|[k' v'] d IH]; simpl.
  - split; [discriminate | tauto].
  - destruct (str_eqb_spec k k') as [->|ne].
    + split; [now left | reflexivity].
    + rewrite IH. split; [now right | intros [E|H]; [now elim ne | exact H]].
Qed.

(** Reading back what was written. *)
Lemma getitem_setitem (d : dict) (k v : str) :
  getitem (setitem d k v) k = Some v.
Proof.
  induction d as [|[k' v'] d IH]; simpl.
  - now rewrite str_eqb_refl.
  - destruct (str_eqb_spec k k') as [->|ne]; simpl.
    + now rewrite str_eqb_refl.
    + destruct (str_eqb_spec k k'); [contradiction | exact IH].
Qed.

(** Writing one key leaves the others. *)
Lemma getitem_setitem_other (d : dict) (k k' v : str) :
  k' <> k -> getitem (setitem d k v) k' = getitem d k'.
Proof.
  intros ne. induction d as [|[k0 v0] d IH]; simpl.
  - destruct (str_eqb_spec k' k); [contradiction | reflexivity].
  - destruct (str_eqb_spec k k0) as [->|ne0]; simpl.
    + destruct (str_eqb_spec k' k0); [contradiction | reflexivity].
    + destruct (str_eqb_spec k' k0); [reflexivity | exact IH].
Qed.

(** A new key goes to the end. *)
Lemma setitem_new (d : dict) (k v : str) :
  Dict.contains d k = false -> items (setitem d k v) = (items d ++ [(k, v)])%list.
Proof.
  unfold Dict.contains, items. induction d as [|[k' v'] d IH]; simpl; [reflexivity|].
  destruct (str_eqb k k'); [discriminate|].
  intros H. now rewrite IH.
Qed.

(** A key that is present keeps its place. *)
Lemma setitem_keys (d : dict) (k v : str) :
  Dict.contains d k = true -> keys (setitem d k v) = keys d.
Proof.
  unfold Dict.contains, keys. induction d as [|[k' v'] d IH]; simpl; [discriminate|].
  destruct (str_eqb_spec k k') as [->|ne]; simpl; [reflexivity|].
  intros H. now rewrite IH.
Qed.

Lemma setitem_well_formed (d : dict) (k v : str) :
  well_formed d -> well_formed (setitem d k v).
Proof.
  unfold well_formed. intros H.
  destruct (Dict.contains d k) eqn:E.
  - now rewrite setitem_keys.
  - pose proof (setitem_new d k v E) as Hi. unfold items in Hi.
    unfold keys. rewrite Hi, map_app. simpl.
    apply NoDup_Add with (a := k) (l := map fst d).
    + pose proof (Add_app k (map fst d) []) as HA.
      now rewrite app_nil_r in HA.
    + split; [exact H|].
      intros Hin. apply contains_keys in Hin. congruence.
Qed.

End DictFacts.

(** ** The handlers *)

Lemma constructed_cli_helper : constructed cli_helper.
Proof. now exists Dict.empty. Qed.

Lemma constructed_table (self : CliHelperBot) :
  constructed self -> supported_commands self = supported_commands cli_helper.
Proof. intros [cache H]. now inversion H. Qed.

(** Unfolds a handler down to the reads and writes of the dictionary. *)
Ltac run_handler :=
  unfold add_contact, change_contact, get_contact, print_all_contacts,
    execute_command, execute_command_body, call, stop, input_error,
    add_contact_body, change_contact_body, get_contact_body,
    _update_number, users_cache, bind, ret, raise, lift;
  cbn [fst snd].

Section Add.

Variable self : CliHelperBot.

(** C1. When the user name is in the dictionary, [add] raises
    [CommandOperationalError] with a text that contains [already exist],
    the decorator returns it behind [Command 'add' failed: ], and the
    dictionary that comes back is the one that went in. *)
Theorem add_contact_rejects_duplicate (cache : dict) (u p p' : str) :
  getitem cache u = Some p ->
  exists msg,
    add_contact_body self [u; p'] cache
      = (cache, Raise CommandOperationalError msg)
    /\ str_contains (txt "already exist") msg = true
    /\ add_contact self [u; p'] cache
         = (cache, Return (txt "Command 'add' failed: " ++ msg))
    /\ getitem (fst (add_contact self [u; p'] cache)) u = Some p.
Proof.
  intros H. apply getitem_contains in H as Hin.
  eexists. run_handler. rewrite Hin. cbn [fst].
  repeat split; try assumption.
  now do 2 apply str_contains_app_r.
Qed.

(** A new user name is stored with its phone, after the others. *)
Lemma add_contact_new (cache : dict) (u p : str) :
  Dict.contains cache u = false ->
  add_contact self [u; p] cache
    = (setitem cache u p,
       Return (txt "Contact " ++ u ++ txt " created with phone: " ++ p ++ txt ".")).
Proof. intros H. run_handler. now rewrite H. Qed.

End Add.

Lemma add_contact_rejects_duplicate_witness :
  getitem (fst (add_contact cli_helper [txt "bob"; txt "123"] Dict.empty)) (txt "bob")
    = Some (txt "123")
  /\ exists msg,
      add_contact_body cli_helper [txt "bob"; txt "999"] [(txt "bob", txt "123")]
        = ([(txt "bob", txt "123")], Raise CommandOperationalError msg)
      /\ str_contains (txt "already exist") msg = true
      /\ add_contact cli_helper [txt "bob"; txt "999"] [(txt "bob", txt "123")]
           = ([(txt "bob", txt "123")], Return (txt "Command 'add' failed: " ++ msg))
      /\ getitem (fst (add_contact cli_helper [txt "bob"; txt "999"] [(txt "bob", txt "123")])) (txt "bob")
           = Some (txt "123").
Proof.
  split; [reflexivity|].
  apply (add_contact_rejects_duplicate cli_helper [(txt "bob", txt "123")] (txt "bob") (txt "123") (txt "999")).
  reflexivity.
Defined.


(** ** Parsing *)

Section Parsing.

Variable fold_table : char -> str.

(** What [parse_input] returns on a line with a first word. *)
Lemma parse_input_cons (line c : str) (rest : list str) :
  split line = c :: rest ->
  parse_input fold_table line
    = Return (casefold fold_table c,
              if str_in (casefold fold_table c) [txt "close"; txt "exit"]
              then [txt "Command '" ++ casefold fold_table c
                    ++ txt "' received. Good buy!"]
              else rest).
Proof. intros H. unfold parse_input. now rewrite H. Qed.

(** The words of a line laid out as white space, a first word, and words
    behind separations. *)
Lemma split_layout (lead w : str) (items : list (str * str)) (trail : str) :
  all_space lead = true -> token w -> Forall gap items ->
  all_space trail = true ->
  split (lead ++ w ++ gaps items ++ trail) = w :: map snd items.
Proof.
  intros Hlead Hw Hitems Htrail.
  destruct (split_gaps items trail Hitems Htrail) as [Hend Hsplit].
  rewrite split_cons by assumption. now rewrite Hsplit.
Qed.

(** C2. A line that is not all white space is some white space, a first
    word, further words each behind a separation of white space, and
    white space at the end.  Of such a line [parse_input] returns the
    first word case-folded as the command and the further words in order
    as the arguments; when the command is [close] or [exit] the
    arguments are instead the one text [Command 'c' received. Good buy!]
    with the command in it.  So [ADD bob 123] gives [add] with [bob] and
    [123], and [exit] gives [exit] with its farewell. *)
Theorem parse_input_words (line : str) :
  (forall (lead w : str) (items : list (str * str)) (trail : str),
      all_space lead = true -> token w -> Forall gap items ->
      all_space trail = true ->
      line = lead ++ w ++ gaps items ++ trail ->
      parse_input fold_table line
        = Return (casefold fold_table w,
                  if str_in (casefold fold_table w) [txt "close"; txt "exit"]
                  then [txt "Command '" ++ casefold fold_table w
                        ++ txt "' received. Good buy!"]
                  else map snd items))
  /\ (all_space line = false ->
      exists (lead w : str) (items : list (str * str)) (trail : str),
        all_space lead = true /\ token w /\ Forall gap items
        /\ all_space trail = true
        /\ line = lead ++ w ++ gaps items ++ trail)
  /\ parse_input fold_table (txt "ADD bob 123")
       = Return (txt "add", [txt "bob"; txt "123"])
  /\ parse_input fold_table (txt "exit")
       = Return (txt "exit", [txt "Command 'exit' received. Good buy!"]).
Proof.
  split; [|split; [|split]].
  - intros lead w items trail Hlead Hw Hitems Htrail ->.
    apply parse_input_cons. now apply split_layout.
  - intros H. destruct (line_layout line) as [Hs|Hl]; [congruence | exact Hl].
  - reflexivity.
  - reflexivity.
Qed.

End Parsing.

Lemma parse_input_words_witness :
  parse_input (fun c => [c]) (txt " Add" ++ [0xA0%N] ++ txt "bob" ++ [9%N; 0x2003%N] ++ txt "123 ")
    = Return (txt "add", [txt "bob"; txt "123"])
  /\ parse_input (fun c => [c]) (txt "CLOSE the door")
       = Return (txt "close", [txt "Command 'close' received. Good buy!"]).
Proof.
  split.
  - apply (proj1 (parse_input_words (fun c => [c])
                    (txt " Add" ++ [0xA0%N] ++ txt "bob" ++ [9%N; 0x2003%N] ++ txt "123 "))
             (txt " ") (txt "Add")
             [([0xA0%N], txt "bob"); ([9%N; 0x2003%N], txt "123")] (txt " "));
      try reflexivity.
    + split; [discriminate | reflexivity].
    + repeat (apply Forall_cons;
              [split; split; (discriminate || reflexivity)|]).
      apply Forall_nil.
  - apply (proj1 (parse_input_words (fun c => [c]) (txt "CLOSE the door"))
             [] (txt "CLOSE")
             [(txt " ", txt "the"); (txt " ", txt "door")] []);
      try reflexivity.
    + split; [discriminate | reflexivity].
    + repeat (apply Forall_cons;
              [split; split; (discriminate || reflexivity)|]).
      apply Forall_nil.
Defined.
(** ** Users that are not in the dictionary *)

Section MissingUser.

Variable self : CliHelperBot.

(** C6. When the user name is not in the dictionary, [change] raises
    [CommandOperationalError] with a text that contains [doesn't exist]
    and points to the [add] command, [phone] raises one that contains
    [doesn't exist], the decorators return both as text, and the
    dictionary stays as it was. *)
Theorem missing_user_rejected (cache : dict) (u p : str) :
  Dict.contains cache u = false ->
  exists msg_change msg_phone,
    (change_contact_body self [u; p] cache
       = (cache, Raise CommandOperationalError msg_change)
     /\ str_contains (txt "doesn't exist") msg_change = true
     /\ str_contains (txt "please use 'add' command") msg_change = true
     /\ change_contact self [u; p] cache
          = (cache, Return (txt "Command 'update' failed: " ++ msg_change)))
    /\ (get_contact_body self [u] cache
          = (cache, Raise CommandOperationalError msg_phone)
        /\ str_contains (txt "doesn't exist") msg_phone = true
        /\ get_contact self [u] cache
             = (cache, Return (txt "Command 'phone' failed: " ++ msg_phone))).
Proof.
  intros H. do 2 eexists. run_handler. rewrite H. cbn [negb].
  repeat split; now do 2 apply str_contains_app_r.
Qed.

End MissingUser.

Lemma missing_user_rejected_witness :
  exists msg_change msg_phone,
    (change_contact_body cli_helper [txt "carol"; txt "1"] Dict.empty
       = (Dict.empty, Raise CommandOperationalError msg_change)
     /\ str_contains (txt "doesn't exist") msg_change = true
     /\ str_contains (txt "please use 'add' command") msg_change = true
     /\ change_contact cli_helper [txt "carol"; txt "1"] Dict.empty
          = (Dict.empty, Return (txt "Command 'update' failed: " ++ msg_change)))
    /\ (get_contact_body cli_helper [txt "carol"] Dict.empty
          = (Dict.empty, Raise CommandOperationalError msg_phone)
        /\ str_contains (txt "doesn't exist") msg_phone = true
        /\ get_contact cli_helper [txt "carol"] Dict.empty
             = (Dict.empty, Return (txt "Command 'phone' failed: " ++ msg_phone))).
Proof.
  apply (missing_user_rejected cli_helper Dict.empty (txt "carol") (txt "1")). reflexivity.
Defined.


(** ** Number of arguments *)

Section Arity.

Variable self : CliHelperBot.

(** With some argument, [hello] and [all] put the warning before what
    they return without arguments. *)
Lemma say_hello_args (args : list str) :
  args <> [] -> say_hello args = unexpected_args args ++ say_hello [].
Proof. destruct args; [easy | reflexivity]. Qed.

Lemma append_records_app (out : str) (records : list (str * str)) :
  append_records out records = out ++ append_records [] records.
Proof.
  revert out. induction records as [|[u p] records IH]; intros out;
    cbn [append_records].
  - now rewrite append_nil_r.
  - rewrite IH. rewrite (IH ([] ++ nl ++ _print_user_phone u p)).
    now rewrite !append_assoc.
Qed.

Lemma print_all_contacts_args (cache : dict) (args : list str) :
  args <> [] ->
  exists listing,
    print_all_contacts self [] cache = (cache, Return listing)
    /\ print_all_contacts self args cache
         = (cache, Return (unexpected_args args ++ listing)).
Proof.
  intros H. eexists. split; [reflexivity|].
  destruct args as [|a args]; [easy|]. run_handler.
  rewrite append_records_app.
  rewrite (append_records_app (_ ++ _) (items cache)).
  now rewrite !append_assoc.
Qed.

(** C7. [add] and [change] with other than two arguments raise
    [CommandOperationalError] with the text that two arguments, username
    and phone, are expected and what was received; [phone] with other
    than one raises it with the text that one argument is expected; the
    decorators return these behind their labels, and the dictionary stays
    as it was.  [hello] and [all] with arguments return, and what they
    return is the line [Warning: Command doesn't expect any arguments.
    Received: ...] followed by what they return without arguments. *)
Theorem exact_arity (cache : dict) (args : list str) :
  (length args <> 2 ->
     let msg :=
       txt "command expects an input of two arguments: username and phone, separated by a space. "
       ++ txt "Received: " ++ join (txt " ") args in
     add_contact_body self args cache
       = (cache, Raise CommandOperationalError msg)
     /\ add_contact self args cache
          = (cache, Return (txt "Command 'add' failed: " ++ msg))
     /\ change_contact_body self args cache
          = (cache, Raise CommandOperationalError msg)
     /\ change_contact self args cache
          = (cache, Return (txt "Command 'update' failed: " ++ msg)))
  /\ (length args <> 1 ->
        let msg :=
          txt "command expects an input of one argument: username. "
          ++ txt "Received: " ++ join (txt " ") args in
        get_contact_body self args cache
          = (cache, Raise CommandOperationalError msg)
        /\ get_contact self args cache
             = (cache, Return (txt "Command 'phone' failed: " ++ msg)))
  /\ (args <> [] ->
        let warning :=
          txt "Warning: Command doesn't expect any arguments. "
          ++ txt "Received: " ++ join (txt " ") args ++ nl in
        say_hello [] = txt "How can I help you?"
        /\ say_hello args = warning ++ txt "How can I help you?"
        /\ exists listing,
             print_all_contacts self [] cache = (cache, Return listing)
             /\ starts_with (txt "All Records: ") listing = true
             /\ print_all_contacts self args cache
                  = (cache, Return (warning ++ listing))).
Proof.
  split; [|split].
  - intros H. destruct args as [|a [|b [|c rest]]]; simpl in H;
      try (now elim H); repeat split.
  - intros H. destruct args as [|a [|b rest]]; simpl in H;
      try (now elim H); repeat split.
  - intros H warning. split; [reflexivity|]. split.
    + now rewrite say_hello_args.
    + destruct (print_all_contacts_args cache args H) as [listing [H0 Hargs]].
      exists listing. split; [exact H0|]. split; [|exact Hargs].
      unfold print_all_contacts, bind, users_cache, ret in H0.
      injection H0 as <-. rewrite append_records_app.
      apply prefix_append_l. reflexivity.
Qed.

End Arity.

Lemma exact_arity_witness :
  add_contact cli_helper [txt "bob"] Dict.empty
    = (Dict.empty,
       Return (txt "Command 'add' failed: command expects an input of two arguments: username and phone, separated by a space. Received: bob"))
  /\ add_contact cli_helper [txt "bob"; txt "1"; txt "2"] Dict.empty
       = (Dict.empty,
          Return (txt "Command 'add' failed: command expects an input of two arguments: username and phone, separated by a space. Received: bob 1 2"))
  /\ get_contact cli_helper [] Dict.empty
       = (Dict.empty,
          Return (txt "Command 'phone' failed: command expects an input of one argument: username. Received: "))
  /\ say_hello [txt "x"]
       = txt "Warning: Command doesn't expect any arguments. Received: x"
         ++ nl ++ txt "How can I help you?".
Proof.
  split; [|split; [|split]].
  - apply (proj1 (exact_arity cli_helper Dict.empty [txt "bob"])). simpl. lia.
  - apply (proj1 (exact_arity cli_helper Dict.empty [txt "bob"; txt "1"; txt "2"])).
    simpl. lia.
  - apply (proj1 (proj2 (exact_arity cli_helper Dict.empty []))). simpl. lia.
  - apply (proj2 (proj2 (exact_arity cli_helper Dict.empty [txt "x"]))). discriminate.
Defined.

(** ** Looking a phone up *)

Section Lookup.

Variable self : CliHelperBot.

(** C8. When the user name maps to a phone, [phone] returns the text
    [Record found: ], a line feed, and the line [User u phone: p] made of
    the user name and the phone; the text begins with [Record found:]
    and contains the phone, and the dictionary stays as it was. *)
Theorem phone_lookup (cache : dict) (u p : str) :
  getitem cache u = Some p ->
  let text :=
    txt "Record found: " ++ nl ++ txt "User " ++ u ++ txt " phone: " ++ p in
  get_contact self [u] cache = (cache, Return text)
  /\ get_contact_body self [u] cache = (cache, Return text)
  /\ starts_with (txt "Record found:") text = true
  /\ str_contains (txt "User " ++ u ++ txt " phone: " ++ p) text = true
  /\ str_contains p text = true.
Proof.
  intros H text. apply getitem_contains in H as Hin.
  run_handler. rewrite Hin, H. cbn [negb].
  split; [reflexivity|]. split; [reflexivity|]. split; [|split].
  - unfold text. now apply (prefix_append_l _ (txt "Record found: ")).
  - unfold text. do 2 apply str_contains_app_r. apply str_contains_refl.
  - unfold text. do 5 apply str_contains_app_r. apply str_contains_refl.
Qed.

End Lookup.

Lemma phone_lookup_witness :
  get_contact cli_helper [txt "bob"]
    (fst (add_contact cli_helper [txt "bob"; txt "123"] Dict.empty))
    = ([(txt "bob", txt "123")],
       Return (txt "Record found: " ++ nl ++ txt "User bob phone: 123"))
  /\ str_contains (txt "123")
       (txt "Record found: " ++ nl ++ txt "User bob phone: 123") = true.
Proof.
  destruct (phone_lookup cli_helper [(txt "bob", txt "123")] (txt "bob") (txt "123")
              eq_refl)
    as [Hphone [_ [_ [_ Hin]]]].
  split; [exact Hphone | exact Hin].
Defined.

(** ** Listing the contacts *)

Section Listing.

Variable self : CliHelperBot.

Lemma append_records_lines (records : list (str * str)) :
  append_records [] records = record_lines records.
Proof.
  unfold record_lines.
  induction records as [|[u p] records IH]; [reflexivity|].
  cbn [append_records map fst snd]. rewrite append_records_app, IH.
  destruct records as [|r records]; [apply append_nil_r | reflexivity].
Qed.

(** What [all] returns, for any arguments. *)
Lemma print_all_contacts_text (cache : dict) (args : list str) :
  print_all_contacts self args cache
    = (cache,
       Return (match args with
               | [] => []
               | _ => txt "Warning: Command doesn't expect any arguments. "
                      ++ txt "Received: " ++ join (txt " ") args ++ nl
               end
               ++ txt "All Records: " ++ nl ++ record_lines (items cache))).
Proof.
  run_handler. rewrite append_records_app, append_records_lines.
  destruct args; [reflexivity|].
  unfold unexpected_args. now rewrite !append_assoc.
Qed.

(** C5. [all] returns for every dictionary and every arguments.  Without
    arguments the text is the header [All Records: ] with its line feed
    and then, for each pair of the dictionary in its order, a line feed
    and the line [User u phone: p]; the empty dictionary gives the header
    alone.  With arguments the line [Warning: Command doesn't expect any
    arguments. Received: ...] with the arguments comes first.  [add] puts
    a new user after those present, so that after [add alice 111] and
    [add bob 222] the line of [alice] comes before the line of [bob]. *)
Theorem print_all_contacts_listing (cache : dict) (args : list str) (u p : str) :
  (print_all_contacts self [] cache
     = (cache,
        Return (txt "All Records: " ++ nl
                ++ join [] (map (fun r => nl ++ txt "User " ++ fst r
                                          ++ txt " phone: " ++ snd r)
                                (items cache))))
   /\ print_all_contacts self [] Dict.empty
        = (Dict.empty, Return (txt "All Records: " ++ nl)))
  /\ (args <> [] ->
        print_all_contacts self args cache
          = (cache,
             Return (txt "Warning: Command doesn't expect any arguments. "
                     ++ txt "Received: " ++ join (txt " ") args ++ nl
                     ++ txt "All Records: " ++ nl
                     ++ join [] (map (fun r => nl ++ txt "User " ++ fst r
                                               ++ txt " phone: " ++ snd r)
                                     (items cache)))))
  /\ (Dict.contains cache u = false ->
        add_contact self [u; p] cache
          = (fst (add_contact self [u; p] cache),
             Return (txt "Contact " ++ u ++ txt " created with phone: " ++ p
                     ++ txt "."))
        /\ items (fst (add_contact self [u; p] cache))
           = items cache ++ [(u, p)])
  /\ (let cache1 := fst (add_contact self [txt "alice"; txt "111"] Dict.empty) in
      let cache2 := fst (add_contact self [txt "bob"; txt "222"] cache1) in
      print_all_contacts self [] cache2
        = (cache2,
           Return (txt "All Records: " ++ nl
                   ++ nl ++ txt "User alice phone: 111"
                   ++ nl ++ txt "User bob phone: 222"))).
Proof.
  split; [split|split; [|split]].
  - apply print_all_contacts_text.
  - reflexivity.
  - intros H. rewrite print_all_contacts_text.
    destruct args; [easy|]. now rewrite !append_assoc.
  - intros H. rewrite add_contact_new by assumption.
    split; [reflexivity | now apply setitem_new].
  - reflexivity.
Qed.

End Listing.

Lemma print_all_contacts_listing_witness :
  print_all_contacts cli_helper [txt "x"; txt "y"] [(txt "alice", txt "111")]
    = ([(txt "alice", txt "111")],
       Return (txt "Warning: Command doesn't expect any arguments. Received: x y"
               ++ nl ++ txt "All Records: " ++ nl
               ++ nl ++ txt "User alice phone: 111"))
  /\ items (fst (add_contact cli_helper [txt "bob"; txt "222"]
                   [(txt "alice", txt "111")]))
       = [(txt "alice", txt "111"); (txt "bob", txt "222")].
Proof.
  pose proof (print_all_contacts_listing cli_helper
                [(txt "alice", txt "111")] [txt "x"; txt "y"] (txt "bob") (txt "222"))
    as [_ [Hargs [Hnew _]]].
  split.
  - apply Hargs. discriminate.
  - apply Hnew. reflexivity.
Defined.
(** ** Commands that are not in the table *)

Lemma table_get_unknown (c : str) :
  ~ In c command_names -> table_get (supported_commands cli_helper) c = None.
Proof.
  intros H. cbn [cli_helper __init__ ret supported_commands table_get].
  unfold command_names in H. cbn [In] in H.
  repeat match goal with
         | |- context [str_eqb c ?k] =>
             destruct (str_eqb_spec c k) as [->|_]; [exfalso; tauto|]
         end.
  reflexivity.
Qed.

(** C4. For a command that is not one of the seven names of the table,
    and any arguments, the body of [execute_command] raises
    [CommandNotSupported] with the text [command 'c' is not supported!];
    the decorator returns it behind [Command execution failed: ], and the
    dictionary stays as it was. *)
Theorem unsupported_command
        (self : CliHelperBot) (c : str) (args : list str) (cache : dict) :
  constructed self ->
  ~ In c command_names ->
  let msg := txt "command '" ++ c ++ txt "' is not supported!" in
  execute_command_body self c args cache
    = (cache, Raise CommandNotSupported msg)
  /\ execute_command self c args cache
       = (cache, Return (txt "Command execution failed" ++ txt ": " ++ msg))
  /\ starts_with (txt "Command execution failed")
       (txt "Command execution failed" ++ txt ": " ++ msg) = true
  /\ str_contains msg (txt "Command execution failed" ++ txt ": " ++ msg) = true.
Proof.
  intros Hself Hc msg.
  unfold execute_command, input_error, execute_command_body.
  rewrite (constructed_table self Hself), (table_get_unknown c Hc).
  split; [reflexivity|]. split; [reflexivity|]. split.
  - apply prefix_append.
  - do 2 apply str_contains_app_r. apply str_contains_refl.
Qed.

Lemma unsupported_command_witness :
  execute_command_body cli_helper (txt "foo") [] Dict.empty
    = (Dict.empty, Raise CommandNotSupported (txt "command 'foo' is not supported!"))
  /\ execute_command cli_helper (txt "foo") [] Dict.empty
       = (Dict.empty,
          Return (txt "Command execution failed: command 'foo' is not supported!")).
Proof.
  assert (Hc : ~ In (txt "foo") command_names).
  { simpl. intros H. repeat destruct H as [H|H]; try discriminate H. exact H. }
  destruct (unsupported_command cli_helper (txt "foo") [] Dict.empty
              (ex_intro _ Dict.empty eq_refl) Hc) as [Hbody [Hwrapped _]].
  split; [exact Hbody | exact Hwrapped].
Defined.

(** ** Stopping *)

(** C3. With the one argument [m], [exit] and [close] raise
    [CliHelperSigStop] with the text [m]; the decorator lets an exception
    of this class through, whatever its label; and a turn of the loop
    that ends in it makes [main] print [m] and stop, with no exception
    left.  So a line whose first word is [exit] or [close] in any case
    prints the farewell and stops. *)
Theorem stop_signal_propagates
        (fold_table : char -> str)
        (self : CliHelperBot) (command m : str) (cache : dict) :
  constructed self ->
  In command [txt "exit"; txt "close"] ->
  execute_command self command [m] cache = (cache, Raise CliHelperSigStop m)
  /\ (forall label func cache',
        func cache = (cache', Raise CliHelperSigStop m) ->
        input_error label func cache = (cache', Raise CliHelperSigStop m))
  /\ (forall line stdin' cache',
        turn fold_table self line cache = (cache', Raise CliHelperSigStop m) ->
        main fold_table self (line :: stdin') cache
          = {| console := [Prompt prompt; Print m];
               status := Stopped;
               cache_after := cache' |})
  /\ (forall line w rest stdin',
        split line = w :: rest -> casefold fold_table w = command ->
        main fold_table self (line :: stdin') cache
          = {| console := [Prompt prompt; Print (farewell command)];
               status := Stopped;
               cache_after := cache |}).
Proof.
  intros Hself Hcmd.
  assert (Hexec : forall text,
             execute_command self command [text] cache
               = (cache, Raise CliHelperSigStop text)).
  { intros text. unfold execute_command, input_error, execute_command_body.
    rewrite (constructed_table self Hself).
    destruct Hcmd as [<-|[<-|[]]]; reflexivity. }
  split; [apply Hexec|]. split; [|split].
  - intros label func cache' H. unfold input_error. now rewrite H.
  - intros line stdin' cache' H. cbn [main]. now rewrite H.
  - intros line w rest stdin' Hsplit Hw. cbn [main]. unfold turn, bind, lift.
    rewrite (parse_input_cons fold_table line w rest Hsplit), Hw.
    replace (str_in command [txt "close"; txt "exit"]) with true
      by (destruct Hcmd as [<-|[<-|[]]]; reflexivity).
    unfold farewell in Hexec |- *. now rewrite Hexec.
Qed.

Lemma stop_signal_propagates_witness :
  execute_command cli_helper (txt "exit") [txt "bye"] Dict.empty
    = (Dict.empty, Raise CliHelperSigStop (txt "bye"))
  /\ main (fun c => [c]) cli_helper [txt "EXIT now"; txt "add bob 1"] Dict.empty
       = {| console := [Prompt prompt; Print (txt "Command 'exit' received. Good buy!")];
            status := Stopped;
            cache_after := Dict.empty |}.
Proof.
  destruct (stop_signal_propagates (fun c => [c]) cli_helper (txt "exit") (txt "bye") Dict.empty
              (ex_intro _ Dict.empty eq_refl) (or_introl eq_refl))
    as [Hexec [_ [_ Hline]]].
  split; [exact Hexec|].
  apply (Hline (txt "EXIT now") (txt "EXIT") [txt "now"] [txt "add bob 1"]); reflexivity.
Defined.


(** ** Lines without a word *)

(** C9. On a line that is empty or all white space, [parse_input] raises
    [ValueError]; the decorator would let it through, the turn of the loop
    ends in it, and [main] prints [Unknown exception was encountered
    during execution: ] with the text of the exception and [The bot will
    stop ...], and ends with that exception.  On every other line
    [parse_input] returns. *)
Theorem blank_line_crashes
        (fold_table : char -> str)
        (self : CliHelperBot) (line : str) (stdin' : list str) (cache : dict) :
  let e := txt "not enough values to unpack (expected at least 1, got 0)" in
  (all_space line = true ->
     parse_input fold_table line = Raise ValueError e
     /\ turn fold_table self line cache = (cache, Raise ValueError e)
     /\ input_error (txt "Command execution failed") (turn fold_table self line) cache
          = (cache, Raise ValueError e)
     /\ main fold_table self (line :: stdin') cache
          = {| console :=
                 [Prompt prompt;
                  Print (txt "Unknown exception was encountered during execution: "
                         ++ e ++ txt "The bot will stop ...")];
               status := Crashed ValueError e;
               cache_after := cache |})
  /\ (all_space line = false ->
        exists command args, parse_input fold_table line = Return (command, args)).
Proof.
  intros e. split.
  - intros H. apply split_nil in H.
    assert (Hp : parse_input fold_table line = Raise ValueError e)
      by (unfold parse_input; now rewrite H).
    assert (Ht : turn fold_table self line cache = (cache, Raise ValueError e))
      by (unfold turn, bind, lift; now rewrite Hp).
    repeat split; try assumption.
    + unfold input_error. now rewrite Ht.
    + cbn [main]. now rewrite Ht.
  - intros H. destruct (split line) as [|w rest] eqn:E.
    + apply split_nil in E. congruence.
    + do 2 eexists. unfold parse_input. rewrite E. reflexivity.
Qed.

Lemma blank_line_crashes_witness :
  main (fun c => [c]) cli_helper [[32%N; 0xA0%N; 9%N; 0x3000%N]; txt "hello"] Dict.empty
    = {| console :=
           [Prompt prompt;
            Print (txt "Unknown exception was encountered during execution: not enough values to unpack (expected at least 1, got 0)The bot will stop ...")];
         status := Crashed ValueError
                     (txt "not enough values to unpack (expected at least 1, got 0)");
         cache_after := Dict.empty |}
  /\ exists command args,
       parse_input (fun c => [c]) (txt " hello") = Return (command, args).
Proof.
  destruct (blank_line_crashes (fun c => [c]) cli_helper
              [32%N; 0xA0%N; 9%N; 0x3000%N] [txt "hello"] Dict.empty)
    as [Hblank _].
  destruct (blank_line_crashes (fun c => [c]) cli_helper (txt " hello") [] Dict.empty)
    as [_ Hword].
  split.
  - destruct (Hblank eq_refl) as [_ [_ [_ Hmain]]]. exact Hmain.
  - apply Hword. reflexivity.
Defined.

(** ** One dictionary for all instances *)

Lemma constructed_unique (self1 self2 : CliHelperBot) :
  constructed self1 -> constructed self2 -> self1 = self2.
Proof.
  intros H1 H2. apply constructed_table in H1, H2.
  destruct self1, self2. simpl in *. congruence.
Qed.

Lemma join_contains (n sep w : str) (ws : list str) :
  In w ws -> str_contains n w = true -> str_contains n (join sep ws) = true.
Proof.
  intros Hin Hn. induction ws as [|w0 ws IH]; [easy|].
  destruct ws as [|w1 ws].
  - destruct Hin as [->|[]]. exact Hn.
  - change (join sep (w0 :: w1 :: ws)) with (w0 ++ sep ++ join sep (w1 :: ws)).
    destruct Hin as [->|Hin].
    + now apply str_contains_app_l.
    + do 2 apply str_contains_app_r. now apply IH.
Qed.

(** The line of every pair of the dictionary is in what [all] returns. *)
Lemma record_lines_contains (records : list (str * str)) (u p : str) :
  In (u, p) records ->
  str_contains (txt "User " ++ u ++ txt " phone: " ++ p) (record_lines records) = true.
Proof.
  intros H. unfold record_lines.
  apply join_contains
    with (w := nl ++ txt "User " ++ u ++ txt " phone: " ++ p).
  - apply (in_map (fun r => nl ++ txt "User " ++ fst r ++ txt " phone: " ++ snd r))
      in H.
    exact H.
  - apply str_contains_app_r, str_contains_refl.
Qed.

Section Objects.

Lemma one_dictionary_class_body : one_dictionary class_body.
Proof. split; [now exists Dict.empty|]. split; [reflexivity | constructor]. Qed.

(** Through an instance the constructor made, a command runs on the one
    dictionary of the class. *)
Lemma execute_command_on_shared
      (w : world) (cache : dict) (i : nat) (command : str) (args : list str) :
  one_dictionary w -> dicts w = [cache] -> i < length (instances w) ->
  execute_command_on w i command args
    = Some ({| dicts := [fst (execute_command cli_helper command args cache)];
               class_namespace := class_namespace w;
               instances := instances w |},
            snd (execute_command cli_helper command args cache)).
Proof.
  intros [_ [Hclass Hinst]] Hd Hi. unfold execute_command_on.
  destruct (nth_error (instances w) i) as [ns|] eqn:Hns.
  - rewrite Forall_forall in Hinst.
    rewrite (Hinst ns (nth_error_In _ _ Hns)).
    unfold getattr, run_method, getattr. cbn [lookup String.eqb Ascii.eqb Bool.eqb andb].
    rewrite Hclass. cbn [lookup String.eqb Ascii.eqb Bool.eqb andb].
    rewrite Hd. cbn [nth_error store].
    change {| supported_commands := supported_commands cli_helper |} with cli_helper.
    now destruct (execute_command cli_helper command args cache).
  - apply nth_error_None in Hns. lia.
Qed.

Lemma new_instance_shared (w : world) (cache : dict) :
  one_dictionary w -> dicts w = [cache] ->
  new_instance w
    = Some {| dicts := [cache];
              class_namespace := class_namespace w;
              instances :=
                instances w
                ++ [[("supported_commands"%string,
                      Table (supported_commands cli_helper))]] |}.
Proof.
  intros [_ [Hclass _]] Hd. unfold new_instance, run_method, getattr.
  cbn [lookup]. rewrite Hclass. cbn [lookup String.eqb Ascii.eqb Bool.eqb andb].
  rewrite Hd. reflexivity.
Qed.

Lemma act_one_dictionary (w : world) (a : action) :
  one_dictionary w -> one_dictionary (act w a).
Proof.
  intros H. pose proof H as [[cache Hd] [Hclass Hinst]].
  destruct a as [|i command args]; cbn [act].
  - rewrite (new_instance_shared w cache H Hd).
    split; [now exists cache|]. split; [exact Hclass|].
    apply Forall_app. split; [exact Hinst | now constructor].
  - destruct (Nat.lt_ge_cases i (length (instances w))) as [Hi|Hi].
    + rewrite (execute_command_on_shared w cache i command args H Hd Hi).
      split; [eexists; reflexivity|]. now split.
    + unfold execute_command_on.
      apply nth_error_None in Hi. now rewrite Hi.
Qed.

Lemma run_actions_one_dictionary (actions : list action) :
  one_dictionary (run_actions actions).
Proof.
  unfold run_actions.
  assert (H : forall w, one_dictionary w -> one_dictionary (fold_left act actions w)).
  { induction actions as [|a actions IH]; intros w Hw; [exact Hw|].
    cbn [fold_left]. apply IH. now apply act_one_dictionary. }
  apply H, one_dictionary_class_body.
Qed.

End Objects.

(** C10. After whatever instances were made and whatever commands were
    run through them, there is one dictionary of contacts, the one the
    class statement made: no instance has a name [_users_cache] of its
    own, and read through any instance the name is that dictionary.
    Making a further instance adds the instance and leaves the
    dictionary and its contents as they were.  So a contact added through
    one instance is returned by [phone] and listed by [all] through any
    other. *)
Theorem users_cache_shared (actions : list action) (i j : nat) (u p : str) :
  i < length (instances (run_actions actions)) ->
  j < length (instances (run_actions actions)) ->
  exists cache,
    dicts (run_actions actions) = [cache]
    /\ (forall k ns,
          nth_error (instances (run_actions actions)) k = Some ns ->
          lookup ns "_users_cache" = None
          /\ getattr (run_actions actions) ns "_users_cache" = Some (DictRef 0))
    /\ (exists w',
          new_instance (run_actions actions) = Some w'
          /\ dicts w' = [cache]
          /\ class_namespace w' = class_namespace (run_actions actions)
          /\ length (instances w') = S (length (instances (run_actions actions))))
    /\ (Dict.contains cache u = false ->
        exists w1,
          execute_command_on (run_actions actions) i (txt "add") [u; p]
            = Some (w1, Return (txt "Contact " ++ u ++ txt " created with phone: "
                                ++ p ++ txt "."))
          /\ dicts w1 = [setitem cache u p]
          /\ execute_command_on w1 j (txt "phone") [u]
               = Some (w1, Return (txt "Record found: " ++ nl
                                   ++ txt "User " ++ u ++ txt " phone: " ++ p))
          /\ exists listing,
               execute_command_on w1 j (txt "all") [] = Some (w1, Return listing)
               /\ str_contains (txt "User " ++ u ++ txt " phone: " ++ p) listing
                  = true).
Proof.
  intros Hi Hj.
  pose proof (run_actions_one_dictionary actions) as Hw.
  set (w := run_actions actions) in *.
  pose proof Hw as [[cache Hd] [Hclass Hinst]].
  exists cache. split; [exact Hd|]. split; [|split].
  - intros k ns Hns. rewrite Forall_forall in Hinst.
    rewrite (Hinst ns (nth_error_In _ _ Hns)). unfold getattr.
    rewrite Hclass. split; reflexivity.
  - eexists. split; [apply (new_instance_shared w cache Hw Hd)|].
    cbn [dicts class_namespace instances].
    split; [reflexivity|]. split; [reflexivity|].
    rewrite length_app. cbn [length]. lia.
  - intros Hnew.
    pose (w1 := {| dicts := [setitem cache u p];
                   class_namespace := class_namespace w;
                   instances := instances w |}).
    assert (Hw1 : one_dictionary w1).
    { split; [eexists; reflexivity|]. now split. }
    assert (Hadd : execute_command cli_helper (txt "add") [u; p] cache
                   = (setitem cache u p,
                      Return (txt "Contact " ++ u ++ txt " created with phone: "
                              ++ p ++ txt "."))).
    { rewrite <- (add_contact_new cli_helper cache u p Hnew).
      unfold execute_command, execute_command_body.
      change (table_get (supported_commands cli_helper) (txt "add"))
        with (Some m_add_contact).
      cbn [call]. unfold add_contact, input_error.
      now destruct (add_contact_body cli_helper [u; p] cache) as [c' [t|[] e]]. }
    pose proof (getitem_setitem cache u p) as Hget.
    pose proof (getitem_contains _ _ _ Hget) as Hin.
    assert (Hphone : execute_command cli_helper (txt "phone") [u] (setitem cache u p)
                     = (setitem cache u p,
                        Return (txt "Record found: " ++ nl
                                ++ txt "User " ++ u ++ txt " phone: " ++ p))).
    { unfold execute_command, execute_command_body.
      change (table_get (supported_commands cli_helper) (txt "phone"))
        with (Some m_get_contact).
      cbn [call]. run_handler. now rewrite Hin, Hget. }
    assert (Hall : execute_command cli_helper (txt "all") [] (setitem cache u p)
                   = (setitem cache u p,
                      Return (txt "All Records: " ++ nl
                              ++ record_lines (items (setitem cache u p))))).
    { unfold execute_command, execute_command_body.
      change (table_get (supported_commands cli_helper) (txt "all"))
        with (Some m_print_all_contacts).
      cbn [call]. unfold input_error.
      now rewrite (print_all_contacts_text cli_helper). }
    exists w1. split; [|split; [reflexivity|split]].
    + rewrite (execute_command_on_shared w cache i _ _ Hw Hd Hi).
      now rewrite Hadd.
    + rewrite (execute_command_on_shared w1 (setitem cache u p) j _ _ Hw1 eq_refl Hj).
      now rewrite Hphone.
    + eexists. split.
      * rewrite (execute_command_on_shared w1 (setitem cache u p) j _ _ Hw1 eq_refl Hj).
        now rewrite Hall.
      * do 2 apply str_contains_app_r. apply record_lines_contains.
        rewrite setitem_new by assumption. apply in_or_app. right. now left.
Qed.

Lemma users_cache_shared_witness :
  exists w1,
    execute_command_on
      (run_actions [New; Command 0 (txt "add") [txt "al"; txt "1"]; New])
      0 (txt "add") [txt "bob"; txt "123"]
    = Some (w1, Return (txt "Contact bob created with phone: 123."))
    /\ dicts w1 = [[(txt "al", txt "1"); (txt "bob", txt "123")]]
    /\ execute_command_on w1 1 (txt "phone") [txt "bob"]
       = Some (w1, Return (txt "Record found: " ++ nl ++ txt "User bob phone: 123")).
Proof.
  destruct (users_cache_shared
              [New; Command 0 (txt "add") [txt "al"; txt "1"]; New]
              0 1 (txt "bob") (txt "123"))
    as [cache [Hd [_ [_ Hadd]]]].
  - simpl. lia.
  - simpl. lia.
  - assert (Hc : cache = [(txt "al", txt "1")]) by (now injection Hd as <-).
    subst cache.
    destruct (Hadd eq_refl) as [w1 [H1 [H2 [H3 _]]]].
    exists w1. split; [exact H1|]. split; [exact H2 | exact H3].
Defined.

(** The objects can tell a dictionary of the class from a dictionary of
    an instance: were the name [_users_cache] bound in an instance to a
    dictionary of its own, a contact added through another instance would
    not be found through it. *)
Remark own_dictionary_would_not_be_shared :
  let table := ("supported_commands"%string, Table (supported_commands cli_helper)) in
  let w := {| dicts := [Dict.empty; Dict.empty];
              class_namespace := [("_users_cache"%string, DictRef 0)];
              instances := [[table]; [("_users_cache"%string, DictRef 1); table]] |} in
  exists w1,
    execute_command_on w 0 (txt "add") [txt "bob"; txt "123"]
      = Some (w1, Return (txt "Contact bob created with phone: 123."))
    /\ execute_command_on w1 1 (txt "phone") [txt "bob"]
       = Some (w1, Return (txt "Command 'phone' failed: user with username bob doesn't exist. Try another username.")).
Proof. eexists. split; reflexivity. Qed.

(** * Further properties of the handlers and of the loop *)

(** ** What a handler does to the dictionary *)

Section CacheEffects.

Variable fold_table : char -> str.
Variable self : CliHelperBot.

Lemma add_contact_cache (args : list str) (cache : dict) :
  fst (add_contact self args cache)
    = match args with
      | [u; p] => if Dict.contains cache u then cache else setitem cache u p
      | _ => cache
      end.
Proof.
  destruct args as [|a [|b [|c rest]]]; try reflexivity.
  run_handler. now destruct (Dict.contains cache a).
Qed.

Lemma change_contact_cache (args : list str) (cache : dict) :
  fst (change_contact self args cache)
    = match args with
      | [u; p] => if Dict.contains cache u then setitem cache u p else cache
      | _ => cache
      end.
Proof.
  destruct args as [|a [|b [|c rest]]]; try reflexivity.
  run_handler. now destruct (Dict.contains cache a).
Qed.

Lemma get_contact_cache (args : list str) (cache : dict) :
  fst (get_contact self args cache) = cache.
Proof.
  destruct args as [|a [|b rest]]; try reflexivity.
  run_handler. destruct (Dict.contains cache a); [|reflexivity].
  cbn [negb]. now destruct (getitem cache a).
Qed.

Lemma input_error_cache (label : str) (func : M str) (cache : dict) :
  fst (input_error label func cache) = fst (func cache).
Proof.
  unfold input_error. destruct (func cache) as [cache' [text|[] e]]; reflexivity.
Qed.

Lemma call_cache (m : method) (args : list str) (cache : dict) :
  fst (call self m args cache)
    = match m with
      | m_add_contact => fst (add_contact self args cache)
      | m_change_contact => fst (change_contact self args cache)
      | _ => cache
      end.
Proof.
  destruct m; try reflexivity.
  - now destruct args as [|a [|b rest]].
  - apply get_contact_cache.
Qed.

Lemma execute_command_cache (command : str) (args : list str) (cache : dict) :
  fst (execute_command self command args cache)
    = match table_get (supported_commands self) command with
      | Some m_add_contact => fst (add_contact self args cache)
      | Some m_change_contact => fst (change_contact self args cache)
      | _ => cache
      end.
Proof.
  unfold execute_command. rewrite input_error_cache.
  unfold execute_command_body.
  destruct (table_get (supported_commands self) command) as [m|]; [|reflexivity].
  rewrite call_cache. now destruct m.
Qed.

(** Whatever the command, the dictionary stays or one key is assigned. *)
Lemma execute_command_step (command : str) (args : list str) (cache : dict) :
  fst (execute_command self command args cache) = cache
  \/ exists k v, fst (execute_command self command args cache) = setitem cache k v.
Proof.
  rewrite execute_command_cache.
  destruct (table_get (supported_commands self) command) as [[]|]; try now left.
  - rewrite add_contact_cache. destruct args as [|a [|b [|c rest]]]; try now left.
    destruct (Dict.contains cache a); [now left | right; now exists a, b].
  - rewrite change_contact_cache. destruct args as [|a [|b [|c rest]]]; try now left.
    destruct (Dict.contains cache a); [right; now exists a, b | now left].
Qed.

Lemma turn_cache (line : str) (cache : dict) :
  fst (turn fold_table self line cache)
    = match parse_input fold_table line with
      | Return (command, args) => fst (execute_command self command args cache)
      | Raise _ _ => cache
      end.
Proof.
  unfold turn, bind, lift.
  destruct (parse_input fold_table line) as [[command args]|cls e]; [|reflexivity].
  now destruct (execute_command self command args cache) as [cache' [text|cls e]].
Qed.

Lemma turn_step (line : str) (cache : dict) :
  fst (turn fold_table self line cache) = cache
  \/ exists k v, fst (turn fold_table self line cache) = setitem cache k v.
Proof.
  rewrite turn_cache.
  destruct (parse_input fold_table line) as [[command args]|cls e]; [|now left].
  apply execute_command_step.
Qed.

(** What every assignment keeps, [main] keeps. *)
Lemma main_keeps (P : dict -> Prop) :
  (forall d k v, P d -> P (setitem d k v)) ->
  forall stdin cache, P cache -> P (cache_after (main fold_table self stdin cache)).
Proof.
  intros HP stdin. induction stdin as [|line stdin IH]; intros cache H; [exact H|].
  cbn [main].
  assert (H' : P (fst (turn fold_table self line cache)))
    by (destruct (turn_step line cache) as [->|[k [v ->]]]; [exact H | now apply HP]).
  destruct (turn fold_table self line cache) as [cache' [text|cls e]]; cbn [fst] in H'.
  - cbn [cache_after]. now apply IH.
  - now destruct cls.
Qed.

End CacheEffects.

Lemma contains_setitem (d : dict) (k k' v : str) :
  Dict.contains d k' = true -> Dict.contains (setitem d k v) k' = true.
Proof.
  intros H. unfold Dict.contains.
  destruct (str_eqb_spec k' k) as [->|ne].
  - now rewrite getitem_setitem.
  - rewrite getitem_setitem_other by assumption. exact H.
Qed.

(** X1. Nothing that is typed removes a contact or breaks the
    dictionary: after [main] on any lines, a dictionary without repeated
    keys has none, and every user name that was present is present. *)
Theorem main_keeps_contacts
        (fold_table : char -> str)
        (self : CliHelperBot) (stdin : list str) (cache : dict) :
  (well_formed cache -> well_formed (cache_after (main fold_table self stdin cache)))
  /\ (forall k, Dict.contains cache k = true ->
                Dict.contains (cache_after (main fold_table self stdin cache)) k = true).
Proof.
  split.
  - apply main_keeps. intros d k v. apply setitem_well_formed.
  - intros k. apply (main_keeps fold_table self (fun d => Dict.contains d k = true)).
    intros d k0 v. apply contains_setitem.
Qed.

Lemma main_keeps_contacts_witness :
  well_formed
    (cache_after (main (fun c => [c]) cli_helper [txt "change bob 7"; txt "add al 1"; txt "exit"]
                    [(txt "bob", txt "123")]))
  /\ Dict.contains
       (cache_after (main (fun c => [c]) cli_helper [txt "change bob 7"; txt "add al 1"; txt "exit"]
                       [(txt "bob", txt "123")])) (txt "bob") = true.
Proof.
  destruct (main_keeps_contacts (fun c => [c]) cli_helper
              [txt "change bob 7"; txt "add al 1"; txt "exit"] [(txt "bob", txt "123")])
    as [Hwf Hkeys].
  split.
  - apply Hwf. unfold well_formed. simpl.
    apply NoDup_cons; [simpl; tauto | apply NoDup_nil].
  - apply Hkeys. reflexivity.
Defined.

(** ** Which command touches which contact *)

(** The method a constructed instance binds to a name. *)
Lemma constructed_get (self : CliHelperBot) (c : str) :
  constructed self ->
  match table_get (supported_commands self) c with
  | Some m_stop => c = txt "close" \/ c = txt "exit"
  | Some m_say_hello => c = txt "hello"
  | Some m_add_contact => c = txt "add"
  | Some m_change_contact => c = txt "change"
  | Some m_get_contact => c = txt "phone"
  | Some m_print_all_contacts => c = txt "all"
  | None => ~ In c command_names
  end.
Proof.
  intros H. rewrite (constructed_table self H).
  cbn [cli_helper __init__ ret supported_commands table_get].
  repeat match goal with
         | |- context [str_eqb c ?k] =>
             destruct (str_eqb_spec c k); [subst; auto|]
         end.
  unfold command_names. cbn [In]. intuition congruence.
Qed.

Lemma contains_false_getitem (d : dict) (k : str) :
  Dict.contains d k = false <-> getitem d k = None.
Proof. unfold Dict.contains. destruct (getitem d k); split; congruence. Qed.

(** X2. A user name that was not in the dictionary is in it after a
    command only if the command is [add] with that name and a phone, and
    then it maps to that phone: no other command creates a contact. *)
Theorem only_add_creates
        (self : CliHelperBot) (c : str) (args : list str)
        (cache : dict) (k : str) :
  constructed self ->
  Dict.contains cache k = false ->
  Dict.contains (fst (execute_command self c args cache)) k = true ->
  c = txt "add"
  /\ exists p, args = [k; p]
               /\ getitem (fst (execute_command self c args cache)) k = Some p.
Proof.
  intros Hself Hnew. rewrite execute_command_cache.
  pose proof (constructed_get self c Hself) as Hc.
  destruct (table_get (supported_commands self) c) as [[]|]; try congruence.
  - rewrite add_contact_cache.
    destruct args as [|u [|p [|x rest]]]; try congruence.
    destruct (Dict.contains cache u) eqn:Hu; [congruence|].
    intros Hk. destruct (str_eqb_spec k u) as [->|ne].
    + split; [exact Hc|]. exists p. split; [reflexivity | apply getitem_setitem].
    + unfold Dict.contains in Hk, Hnew.
      rewrite getitem_setitem_other in Hk by assumption. congruence.
  - rewrite change_contact_cache.
    destruct args as [|u [|p [|x rest]]]; try congruence.
    destruct (Dict.contains cache u) eqn:Hu; [|congruence].
    intros Hk. destruct (str_eqb_spec k u) as [->|ne]; [congruence|].
    unfold Dict.contains in Hk, Hnew.
    rewrite getitem_setitem_other in Hk by assumption. congruence.
Qed.

Lemma only_add_creates_witness :
  (txt "add") = txt "add"
  /\ exists p, [txt "bob"; txt "123"] = [txt "bob"; p]
               /\ getitem (fst (execute_command cli_helper (txt "add") [txt "bob"; txt "123"]
                                  Dict.empty)) (txt "bob") = Some p.
Proof.
  apply (only_add_creates cli_helper (txt "add") [txt "bob"; txt "123"] Dict.empty (txt "bob")).
  - exists Dict.empty. reflexivity.
  - reflexivity.
  - reflexivity.
Defined.

(** X3. The phone stored for a user is what it was after every command
    but one: after [change] with that user and a phone the user maps to
    the new phone.  In particular [add] never overwrites. *)
Theorem only_change_alters
        (self : CliHelperBot) (c : str) (args : list str)
        (cache : dict) (k v : str) :
  constructed self ->
  getitem cache k = Some v ->
  (forall p, c = txt "change" -> args = [k; p] ->
             getitem (fst (execute_command self c args cache)) k = Some p)
  /\ (c <> txt "change" \/ (forall p, args <> [k; p]) ->
      getitem (fst (execute_command self c args cache)) k = Some v).
Proof.
  intros Hself Hk. rewrite execute_command_cache.
  pose proof (constructed_get self c Hself) as Hc.
  pose proof (getitem_contains _ _ _ Hk) as Hin.
  split.
  - intros p -> ->. rewrite (constructed_table self Hself).
    change (table_get (supported_commands cli_helper) (txt "change"))
      with (Some m_change_contact).
    rewrite change_contact_cache, Hin. apply getitem_setitem.
  - intros Hother.
    destruct (table_get (supported_commands self) c) as [[]|]; try assumption.
    + rewrite add_contact_cache.
      destruct args as [|u [|p [|x rest]]]; try assumption.
      destruct (Dict.contains cache u) eqn:Hu; [assumption|].
      rewrite getitem_setitem_other; [assumption | congruence].
    + rewrite change_contact_cache.
      destruct args as [|u [|p [|x rest]]]; try assumption.
      destruct (Dict.contains cache u) eqn:Hu; [|assumption].
      destruct (str_eqb_spec k u) as [->|ne].
      * destruct Hother as [Hne|Hne]; [now elim Hne | now elim (Hne p)].
      * now rewrite getitem_setitem_other.
Qed.

Lemma only_change_alters_witness :
  getitem (fst (execute_command cli_helper (txt "change") [txt "bob"; txt "999"]
                  [(txt "al", txt "1"); (txt "bob", txt "123")])) (txt "bob")
    = Some (txt "999")
  /\ getitem (fst (execute_command cli_helper (txt "add") [txt "bob"; txt "999"]
                     [(txt "al", txt "1"); (txt "bob", txt "123")])) (txt "bob")
       = Some (txt "123").
Proof.
  split.
  - apply (proj1 (only_change_alters cli_helper (txt "change") [txt "bob"; txt "999"]
                    [(txt "al", txt "1"); (txt "bob", txt "123")]
                    (txt "bob") (txt "123")
                    (ex_intro _ Dict.empty eq_refl) eq_refl));
      reflexivity.
  - apply (proj2 (only_change_alters cli_helper (txt "add") [txt "bob"; txt "999"]
                    [(txt "al", txt "1"); (txt "bob", txt "123")]
                    (txt "bob") (txt "123")
                    (ex_intro _ Dict.empty eq_refl) eq_refl)).
    left. discriminate.
Defined.

(** X4. Every command other than [add] and [change], known or not and
    with any arguments, leaves the dictionary as it was. *)
Theorem other_commands_read_only
        (self : CliHelperBot) (c : str) (args : list str) (cache : dict) :
  constructed self ->
  c <> (txt "add") -> c <> (txt "change") ->
  fst (execute_command self c args cache) = cache.
Proof.
  intros Hself Hadd Hchange. rewrite execute_command_cache.
  pose proof (constructed_get self c Hself) as Hc.
  destruct (table_get (supported_commands self) c) as [[]|]; congruence.
Qed.

Lemma other_commands_read_only_witness :
  fst (execute_command cli_helper (txt "phone") [txt "bob"; txt "1"] [(txt "bob", txt "123")])
    = [(txt "bob", txt "123")].
Proof.
  apply (other_commands_read_only cli_helper (txt "phone") [txt "bob"; txt "1"] [(txt "bob", txt "123")]).
  - exists Dict.empty. reflexivity.
  - discriminate.
  - discriminate.
Defined.

(** ** Changing a phone *)

Lemma setitem_setitem (d : dict) (k v1 v2 : str) :
  setitem (setitem d k v1) k v2 = setitem d k v2.
Proof.
  induction d as [|[k' v'] d IH]; simpl.
  - now rewrite str_eqb_refl.
  - destruct (str_eqb k k') eqn:E; simpl.
    + now rewrite str_eqb_refl.
    + now rewrite E, IH.
Qed.

Lemma setitem_same (d : dict) (k v : str) :
  getitem d k = Some v -> setitem d k v = d.
Proof.
  induction d as [|[k' v'] d IH]; simpl; [discriminate|].
  destruct (str_eqb_spec k k') as [->|ne].
  - now intros [= ->].
  - intros H. now rewrite IH.
Qed.

Lemma contains_setitem_same (d : dict) (k v : str) :
  Dict.contains (setitem d k v) k = true.
Proof. apply getitem_contains with (v := v), getitem_setitem. Qed.

(** X5. For a user that is present, [change] returns the confirmation
    and assigns the new phone: [phone] then returns it, the user keeps
    its place in the order of the dictionary, and the phone of every
    other user is what it was. *)
Theorem change_contact_updates
        (self : CliHelperBot) (cache : dict) (u p p' : str) :
  getitem cache u = Some p ->
  change_contact self [u; p'] cache
    = (setitem cache u p',
       Return (txt "Contact " ++ u ++ txt " updated with phone: " ++ p' ++ txt "."))
  /\ get_contact self [u] (setitem cache u p')
       = (setitem cache u p',
          Return (txt "Record found: " ++ nl ++ _print_user_phone u p'))
  /\ keys (setitem cache u p') = keys cache
  /\ (forall k, k <> u -> getitem (setitem cache u p') k = getitem cache k).
Proof.
  intros H. apply getitem_contains in H as Hin. split; [|split; [|split]].
  - run_handler. now rewrite Hin.
  - run_handler. now rewrite contains_setitem_same, getitem_setitem.
  - now apply setitem_keys.
  - intros k ne. now apply getitem_setitem_other.
Qed.

Lemma change_contact_updates_witness :
  change_contact cli_helper [txt "bob"; txt "7"] [(txt "al", txt "1"); (txt "bob", txt "123")]
    = ([(txt "al", txt "1"); (txt "bob", txt "7")],
       Return (txt "Contact bob updated with phone: 7."))
  /\ keys (setitem [(txt "al", txt "1"); (txt "bob", txt "123")] (txt "bob") (txt "7"))
       = keys [(txt "al", txt "1"); (txt "bob", txt "123")].
Proof.
  destruct (change_contact_updates cli_helper
              [(txt "al", txt "1"); (txt "bob", txt "123")] (txt "bob") (txt "123") (txt "7") eq_refl)
    as [Hchange [_ [Hkeys _]]].
  split; [exact Hchange | exact Hkeys].
Defined.

(** X6. Of two [change] commands for the same user the second decides:
    the dictionary is what the second alone would give, whether or not the
    user is present. *)
Theorem change_contact_last_wins
        (self : CliHelperBot) (cache : dict) (u p1 p2 : str) :
  fst (change_contact self [u; p2] (fst (change_contact self [u; p1] cache)))
    = fst (change_contact self [u; p2] cache).
Proof.
  rewrite !change_contact_cache.
  destruct (Dict.contains cache u) eqn:Hu.
  - now rewrite contains_setitem_same, setitem_setitem.
  - now rewrite Hu.
Qed.

(** X7. [change] to the phone a user already has leaves the dictionary
    as it was, and still returns the confirmation. *)
Theorem change_contact_same_phone
        (self : CliHelperBot) (cache : dict) (u p : str) :
  getitem cache u = Some p ->
  change_contact self [u; p] cache
    = (cache, Return (txt "Contact " ++ u ++ txt " updated with phone: " ++ p ++ txt ".")).
Proof.
  intros H. apply getitem_contains in H as Hin.
  run_handler. rewrite Hin. cbn [negb]. now rewrite (setitem_same _ _ _ H).
Qed.

Lemma change_contact_same_phone_witness :
  change_contact cli_helper [txt "bob"; txt "123"] [(txt "al", txt "1"); (txt "bob", txt "123")]
    = ([(txt "al", txt "1"); (txt "bob", txt "123")],
       Return (txt "Contact bob updated with phone: 123.")).
Proof.
  apply (change_contact_same_phone cli_helper
           [(txt "al", txt "1"); (txt "bob", txt "123")] (txt "bob") (txt "123")).
  reflexivity.
Defined.

(** ** The decorator *)

Lemma input_error_absorbs (outer inner : str) (func : M str) (cache : dict) :
  input_error outer (input_error inner func) cache
    = input_error inner func cache.
Proof.
  unfold input_error. now destruct (func cache) as [cache' [text|[] e]].
Qed.

(** X8. A function under two decorators behaves as under the inner one
    alone, so a failure of a handler is returned with the label of the
    handler; and a decorated function never raises
    [CommandOperationalError] or [CommandNotSupported]. *)
Theorem input_error_inner_label
        (outer inner : str) (func : M str) (cache : dict) :
  input_error outer (input_error inner func) cache
    = input_error inner func cache
  /\ match snd (input_error inner func cache) with
     | Raise CommandOperationalError _ | Raise CommandNotSupported _ => False
     | _ => True
     end.
Proof.
  unfold input_error.
  destruct (func cache) as [cache' [text|[] e]]; now split.
Qed.

(** ** When a command raises *)

Section Returns.

Variable self : CliHelperBot.

Lemma add_contact_returns (args : list str) (cache : dict) :
  exists text, snd (add_contact self args cache) = Return text.
Proof.
  destruct args as [|a [|b [|c rest]]]; try (eexists; reflexivity).
  run_handler. destruct (Dict.contains cache a); eexists; reflexivity.
Qed.

Lemma change_contact_returns (args : list str) (cache : dict) :
  exists text, snd (change_contact self args cache) = Return text.
Proof.
  destruct args as [|a [|b [|c rest]]]; try (eexists; reflexivity).
  run_handler. destruct (Dict.contains cache a); eexists; reflexivity.
Qed.

(** The lookup after the test of membership never fails. *)
Lemma get_contact_returns (args : list str) (cache : dict) :
  exists text, snd (get_contact self args cache) = Return text.
Proof.
  destruct args as [|a [|b rest]]; try (eexists; reflexivity).
  run_handler. destruct (Dict.contains cache a) eqn:Ha.
  - apply contains_getitem in Ha as [v Hv]. rewrite Hv. eexists; reflexivity.
  - eexists; reflexivity.
Qed.

Lemma input_error_returns (label : str) (func : M str) (cache : dict) (text : str) :
  snd (func cache) = Return text ->
  snd (input_error label func cache) = Return text.
Proof.
  unfold input_error. destruct (func cache) as [cache' [t|cls e]]; simpl.
  - now intros [= ->].
  - discriminate.
Qed.

End Returns.

(** The outcomes of [execute_command] through a constructed instance. *)
Lemma execute_command_outcome
        (self : CliHelperBot) (c : str) (args : list str) (cache : dict) :
  constructed self ->
  match snd (execute_command self c args cache) with
  | Return _ => c <> (txt "close") /\ c <> (txt "exit")
  | Raise cls e =>
      (c = txt "close" \/ c = txt "exit")
      /\ ((cls = CliHelperSigStop /\ args = [e])
          \/ (cls = TypeError /\ length args <> 1))
  end.
Proof.
  intros Hself. pose proof (constructed_get self c Hself) as Hc.
  unfold execute_command, execute_command_body.
  destruct (table_get (supported_commands self) c) as [[]|] eqn:E.
  - destruct args as [|m [|b rest]]; cbn; (split; [exact Hc|]);
      [right | left | right]; split; (reflexivity || discriminate).
  - subst c. cbn. split; discriminate.
  - destruct (add_contact_returns self args cache) as [text Ht].
    cbn [call]. rewrite (input_error_returns _ _ _ _ Ht).
    subst c. split; discriminate.
  - destruct (change_contact_returns self args cache) as [text Ht].
    cbn [call]. rewrite (input_error_returns _ _ _ _ Ht).
    subst c. split; discriminate.
  - destruct (get_contact_returns self args cache) as [text Ht].
    cbn [call]. rewrite (input_error_returns _ _ _ _ Ht).
    subst c. split; discriminate.
  - subst c. cbn. split; discriminate.
  - cbn. unfold command_names in Hc. cbn [In] in Hc. split; intros ->; tauto.
Qed.

(** X9. Through a constructed instance a command returns a text unless
    it is [close] or [exit]; these raise [CliHelperSigStop] with their one
    argument, and [TypeError] when the arguments are not exactly one. *)
Theorem execute_command_raises
        (self : CliHelperBot) (c : str) (args : list str) (cache : dict) :
  constructed self ->
  match snd (execute_command self c args cache) with
  | Return _ => c <> (txt "close") /\ c <> (txt "exit")
  | Raise cls e =>
      (c = txt "close" \/ c = txt "exit")
      /\ ((cls = CliHelperSigStop /\ args = [e])
          \/ (cls = TypeError /\ length args <> 1))
  end.
Proof. apply execute_command_outcome. Qed.

Lemma execute_command_raises_witness :
  match snd (execute_command cli_helper (txt "exit") [txt "a"; txt "b"] Dict.empty) with
  | Return _ => txt "exit" <> (txt "close") /\ (txt "exit") <> (txt "exit")
  | Raise cls e =>
      (txt "exit" = txt "close" \/ (txt "exit") = txt "exit")
      /\ ((cls = CliHelperSigStop /\ [txt "a"; txt "b"] = [e])
          \/ (cls = TypeError /\ length [txt "a"; txt "b"] <> 1))
  end.
Proof.
  apply (execute_command_raises cli_helper (txt "exit") [txt "a"; txt "b"] Dict.empty).
  exists Dict.empty. reflexivity.
Defined.

(** ** One turn of the loop *)

Lemma str_in_stop (c : str) :
  str_in c [txt "close"; txt "exit"] = false <-> c <> (txt "close") /\ c <> (txt "exit").
Proof.
  unfold str_in. cbn [existsb].
  destruct (str_eqb_spec c (txt "close")), (str_eqb_spec c (txt "exit"));
    cbn; intuition congruence.
Qed.

Lemma execute_command_returns
      (self : CliHelperBot) (c : str) (args : list str) (cache : dict) :
  constructed self -> str_in c [txt "close"; txt "exit"] = false ->
  exists text, snd (execute_command self c args cache) = Return text.
Proof.
  intros Hself Hc. apply str_in_stop in Hc.
  pose proof (execute_command_outcome self c args cache Hself) as H.
  destruct (snd (execute_command self c args cache)) as [text|cls e].
  - now exists text.
  - tauto.
Qed.

Lemma execute_command_stop
      (self : CliHelperBot) (c m : str) (cache : dict) :
  constructed self -> str_in c [txt "close"; txt "exit"] = true ->
  execute_command self c [m] cache = (cache, Raise CliHelperSigStop m).
Proof.
  intros Hself Hc. unfold str_in in Hc. cbn [existsb] in Hc.
  unfold execute_command, input_error, execute_command_body.
  rewrite (constructed_table self Hself).
  destruct (str_eqb_spec c (txt "close")) as [->|_]; [reflexivity|].
  destruct (str_eqb_spec c (txt "exit")) as [->|_]; [reflexivity | discriminate].
Qed.

(** What a turn ends in, by the words of the line. *)
Lemma turn_outcome (fold_table : char -> str)
      (self : CliHelperBot) (line : str) (cache : dict) :
  constructed self ->
  match split line with
  | [] =>
      turn fold_table self line cache
        = (cache, Raise ValueError
                    (txt "not enough values to unpack (expected at least 1, got 0)"))
  | w :: rest =>
      if str_in (casefold fold_table w) [txt "close"; txt "exit"]
      then turn fold_table self line cache
             = (cache, Raise CliHelperSigStop (farewell (casefold fold_table w)))
      else exists text,
             execute_command self (casefold fold_table w) rest cache
               = (fst (execute_command self (casefold fold_table w) rest cache), Return text)
             /\ turn fold_table self line cache
                  = (fst (execute_command self (casefold fold_table w) rest cache),
                     Return (txt "Command '" ++ casefold fold_table w
                             ++ txt "' executed successfully. Result is:"
                             ++ nl ++ text))
  end.
Proof.
  intros Hself. unfold turn, bind, lift, parse_input.
  destruct (split line) as [|w rest]; [reflexivity|].
  destruct (str_in (casefold fold_table w) [txt "close"; txt "exit"]) eqn:Hw.
  - unfold farewell. now rewrite (execute_command_stop self _ _ cache Hself Hw).
  - destruct (execute_command_returns self (casefold fold_table w) rest cache Hself Hw)
      as [text Ht].
    exists text.
    destruct (execute_command self (casefold fold_table w) rest cache) as [cache' r].
    cbn [fst snd] in *. now subst r.
Qed.

(** X10. A line with a first word other than [close] and [exit] never
    ends the loop: whatever the command does, fails or is unknown, the
    turn returns the text [Command 'c' executed successfully. Result is:]
    followed by what [execute_command] returned. *)
Theorem turn_continues
        (fold_table : char -> str)
        (self : CliHelperBot) (line w : str) (rest : list str) (cache : dict) :
  constructed self ->
  split line = w :: rest ->
  str_in (casefold fold_table w) [txt "close"; txt "exit"] = false ->
  exists text,
    execute_command self (casefold fold_table w) rest cache
      = (fst (execute_command self (casefold fold_table w) rest cache), Return text)
    /\ turn fold_table self line cache
         = (fst (execute_command self (casefold fold_table w) rest cache),
            Return (txt "Command '" ++ casefold fold_table w
                    ++ txt "' executed successfully. Result is:" ++ nl ++ text)).
Proof.
  intros Hself Hsplit Hw.
  pose proof (turn_outcome fold_table self line cache Hself) as H.
  now rewrite Hsplit, Hw in H.
Qed.

Lemma turn_continues_witness :
  exists text,
    execute_command cli_helper (casefold (fun c => [c]) (txt "Foo")) [txt "1"] Dict.empty
      = (fst (execute_command cli_helper (casefold (fun c => [c]) (txt "Foo")) [txt "1"] Dict.empty),
         Return text)
    /\ turn (fun c => [c]) cli_helper (txt "Foo 1") Dict.empty
         = (fst (execute_command cli_helper (casefold (fun c => [c]) (txt "Foo")) [txt "1"] Dict.empty),
            Return (txt "Command '" ++ casefold (fun c => [c]) (txt "Foo")
                    ++ txt "' executed successfully. Result is:" ++ nl ++ text)).
Proof.
  apply (turn_continues (fun c => [c]) cli_helper (txt "Foo 1") (txt "Foo") [txt "1"] Dict.empty).
  - exists Dict.empty. reflexivity.
  - reflexivity.
  - reflexivity.
Defined.

(** ** How the loop ends *)

Lemma main_expected (fold_table : char -> str) (self : CliHelperBot) (stdin : list str) (cache : dict) :
  constructed self ->
  status (main fold_table self stdin cache) = expected_status fold_table stdin
  /\ exists texts,
       console (main fold_table self stdin cache) = prompted texts
       /\ length texts = expected_prompts fold_table stdin.
Proof.
  intros Hself. revert cache.
  induction stdin as [|line stdin IH]; intros cache.
  - split; [reflexivity|]. eexists [_]. split; reflexivity.
  - cbn [main expected_status expected_prompts].
    pose proof (turn_outcome fold_table self line cache Hself) as H.
    destruct (split line) as [|w rest].
    + rewrite H. split; [reflexivity|]. eexists [_]. split; reflexivity.
    + destruct (str_in (casefold fold_table w) [txt "close"; txt "exit"]).
      * rewrite H. split; [reflexivity|]. eexists [_]. split; reflexivity.
      * destruct H as [text [_ ->]].
        destruct (IH (fst (execute_command self (casefold fold_table w) rest cache)))
          as [Hs [texts [Hc Hl]]].
        cbn [status console]. split; [exact Hs|].
        eexists (_ :: texts). rewrite Hc. split; [reflexivity|].
        cbn [length]. now rewrite Hl.
Qed.

(** X11. How [main] ends is decided by the lines alone, not by the
    dictionary or by what the commands do: it stops at the first line
    whose first word is [close] or [exit] in any case, ends with
    [ValueError] at the first line without a word, and with [EOFError]
    when the lines are used up before that. *)
Theorem main_status
        (fold_table : char -> str)
        (self : CliHelperBot) (stdin : list str) (cache : dict) :
  constructed self ->
  status (main fold_table self stdin cache) = expected_status fold_table stdin.
Proof. intros Hself. now apply main_expected. Qed.

Lemma main_status_witness :
  status (main (fun c => [c]) cli_helper [txt "add bob 1"; txt "foo"; txt "Close"; txt "  "] [(txt "al", txt "1")])
    = expected_status (fun c => [c]) [txt "add bob 1"; txt "foo"; txt "Close"; txt "  "].
Proof.
  apply (main_status (fun c => [c]) cli_helper [txt "add bob 1"; txt "foo"; txt "Close"; txt "  "] [(txt "al", txt "1")]).
  exists Dict.empty. reflexivity.
Defined.

(** X12. On the console every prompt is followed by exactly one printed
    text, and the prompts are one for each line read, the line that ends
    the loop included, or one more than the lines when they are used
    up. *)
Theorem main_console
        (fold_table : char -> str)
        (self : CliHelperBot) (stdin : list str) (cache : dict) :
  constructed self ->
  exists texts,
    console (main fold_table self stdin cache) = prompted texts
    /\ length texts = expected_prompts fold_table stdin.
Proof. intros Hself. now apply main_expected. Qed.

Lemma main_console_witness :
  exists texts,
    console (main (fun c => [c]) cli_helper [txt "hello"; txt "exit"; txt "hello"] Dict.empty)
      = prompted texts
    /\ length texts = expected_prompts (fun c => [c]) [txt "hello"; txt "exit"; txt "hello"].
Proof.
  apply (main_console (fun c => [c]) cli_helper [txt "hello"; txt "exit"; txt "hello"] Dict.empty).
  exists Dict.empty. reflexivity.
Defined.

(** X13. Once [main] has ended otherwise than by the end of the lines,
    lines that follow are not read: with more lines after them the
    console, the status and the dictionary are the same. *)
Theorem main_ignores_rest
        (fold_table : char -> str)
        (self : CliHelperBot) (stdin more : list str) (cache : dict) :
  (forall e, status (main fold_table self stdin cache) <> Crashed EOFError e) ->
  main fold_table self (stdin ++ more)%list cache = main fold_table self stdin cache.
Proof.
  revert cache. induction stdin as [|line stdin IH]; intros cache H.
  - now elim (H (txt "EOF when reading a line")).
  - rewrite <- app_comm_cons. cbn [main] in *.
    destruct (turn fold_table self line cache) as [cache' [text|cls e]]; [|reflexivity].
    cbn [status] in H. now rewrite (IH cache' H).
Qed.

Lemma main_ignores_rest_witness :
  main (fun c => [c]) cli_helper ([txt "add bob 1"; txt "exit"] ++ [txt "add al 2"; txt "all"])%list Dict.empty
    = main (fun c => [c]) cli_helper [txt "add bob 1"; txt "exit"] Dict.empty.
Proof.
  apply (main_ignores_rest (fun c => [c]) cli_helper [txt "add bob 1"; txt "exit"] [txt "add al 2"; txt "all"]
           Dict.empty).
  intros e. simpl. discriminate.
Defined.

(** ** Words in, words out *)

(** X14. A line made of words joined by single blanks parses back to
    those words: the first comes back case-folded as the command, the
    others unchanged and in order as the arguments, unless the command is
    [close] or [exit]. *)
Theorem parse_input_join
        (fold_table : char -> str) (command : str) (args : list str) :
  token command -> Forall token args ->
  parse_input fold_table (join (txt " ") (command :: args))
    = Return (casefold fold_table command,
              if str_in (casefold fold_table command) [txt "close"; txt "exit"]
              then [farewell (casefold fold_table command)]
              else args).
Proof.
  intros Hc Hargs. apply parse_input_cons.
  apply split_join. now constructor.
Qed.

Lemma parse_input_join_witness :
  parse_input (fun c => [c]) (join (txt " ") [txt "Change"; txt "bob"; txt "+38(050)1"])
    = Return (txt "change", [txt "bob"; txt "+38(050)1"]).
Proof.
  apply (parse_input_join (fun c => [c]) (txt "Change") [txt "bob"; txt "+38(050)1"]).
  - split; [discriminate | reflexivity].
  - repeat (apply Forall_cons; [split; [discriminate | reflexivity]|]).
    apply Forall_nil.
Defined.

Lemma is_space_ascii_lower (c : char) : is_space (ascii_lower c) = is_space c.
Proof.
  unfold ascii_lower.
  destruct ((0x41 <=? c) && (c <=? 0x5A))%N eqn:E; [|reflexivity].
  apply andb_true_iff in E as [E1 E2].
  apply N.leb_le in E1. apply N.leb_le in E2. unfold is_space.
  repeat match goal with
         | |- context [(?a <=? ?b)%N] =>
             destruct (N.leb_spec a b); try lia
         | |- context [(?a =? ?b)%N] =>
             destruct (N.eqb_spec a b); try lia
         end;
    try reflexivity.
Qed.

Lemma ascii_lower_idem (c : char) : ascii_lower (ascii_lower c) = ascii_lower c.
Proof.
  unfold ascii_lower.
  destruct ((0x41 <=? c) && (c <=? 0x5A))%N eqn:E.
  - apply andb_true_iff in E as [E1 E2].
    apply N.leb_le in E1. apply N.leb_le in E2.
    destruct (N.leb_spec 0x41 (c + 0x20)); destruct (N.leb_spec (c + 0x20) 0x5A);
      try lia; reflexivity.
  - now rewrite E.
Qed.

Lemma ascii_lower_below (c : char) :
  (c <? 0x80)%N = true -> (ascii_lower c <? 0x80)%N = true.
Proof.
  unfold ascii_lower. intros H.
  destruct ((0x41 <=? c) && (c <=? 0x5A))%N eqn:E; [|exact H].
  apply andb_true_iff in E as [E1 E2]. apply N.leb_le in E2.
  apply N.ltb_lt. lia.
Qed.

Section Folding.

Variable fold_table : char -> str.

(** What the table of the Unicode database has for the code points above
    127: every one folds to some code points, a code point that is no
    white space folds to none that is, and what a code point folds to is
    folded already. *)
Hypothesis fold_not_empty :
  forall c, (0x80 <= c)%N -> fold_table c <> [].
Hypothesis fold_no_space :
  forall c, (0x80 <= c)%N -> is_space c = false -> no_space (fold_table c) = true.
Hypothesis fold_folded :
  forall c, (0x80 <= c)%N -> casefold fold_table (fold_table c) = fold_table c.

Lemma casefold_app (a b : str) :
  casefold fold_table (a ++ b) = casefold fold_table a ++ casefold fold_table b.
Proof. apply flat_map_app. Qed.

Lemma fold_char_folded (c : char) :
  casefold fold_table (fold_char fold_table c) = fold_char fold_table c.
Proof.
  unfold fold_char. destruct (c <? 0x80)%N eqn:E.
  - cbn [casefold flat_map]. unfold fold_char.
    rewrite (ascii_lower_below c E), ascii_lower_idem. reflexivity.
  - apply fold_folded. apply N.ltb_ge in E. exact E.
Qed.

Lemma casefold_idem (s : str) :
  casefold fold_table (casefold fold_table s) = casefold fold_table s.
Proof.
  induction s as [|c s IH]; [reflexivity|].
  change (casefold fold_table (c :: s))
    with (fold_char fold_table c ++ casefold fold_table s).
  now rewrite casefold_app, fold_char_folded, IH.
Qed.

Lemma fold_char_not_empty (c : char) : fold_char fold_table c <> [].
Proof.
  unfold fold_char. destruct (c <? 0x80)%N eqn:E; [discriminate|].
  apply fold_not_empty. now apply N.ltb_ge in E.
Qed.

Lemma fold_char_no_space (c : char) :
  is_space c = false -> no_space (fold_char fold_table c) = true.
Proof.
  intros H. unfold fold_char. destruct (c <? 0x80)%N eqn:E.
  - cbn. now rewrite is_space_ascii_lower, H.
  - apply fold_no_space; [now apply N.ltb_ge in E | exact H].
Qed.

Lemma token_casefold (s : str) : token s -> token (casefold fold_table s).
Proof.
  intros [Hne Hs]. split.
  - destruct s as [|c s]; [now elim Hne|].
    change (casefold fold_table (c :: s))
      with (fold_char fold_table c ++ casefold fold_table s).
    intros H. apply app_eq_nil in H as [H _].
    now apply fold_char_not_empty in H.
  - clear Hne. induction s as [|c s IH]; [reflexivity|].
    cbn [no_space forallb] in Hs. apply andb_true_iff in Hs as [Hc Hs].
    apply negb_true_iff in Hc.
    change (casefold fold_table (c :: s))
      with (fold_char fold_table c ++ casefold fold_table s).
    rewrite no_space_app, (fold_char_no_space c Hc). now apply IH.
Qed.

(** X15. Whatever the line, a command that [parse_input] returns is not
    empty, has no white space and is its own case-folding, and the
    arguments are words, none empty and none with white space in it, or
    the one farewell text when the command is [close] or [exit]. *)
Theorem parse_input_result (line c : str) (args : list str) :
  parse_input fold_table line = Return (c, args) ->
  token c
  /\ casefold fold_table c = c
  /\ (if str_in c [txt "close"; txt "exit"]
      then args = [farewell c]
      else Forall token args).
Proof.
  unfold parse_input. pose proof (split_tokens line) as Ht.
  destruct (split line) as [|w rest]; [discriminate|].
  inversion Ht as [|? ? Hw Hrest]; subst.
  destruct (str_in (casefold fold_table w) [txt "close"; txt "exit"]) eqn:Hs;
    intros [= <- <-]; rewrite Hs;
    (split; [now apply token_casefold|]); (split; [apply casefold_idem|]);
    [reflexivity | exact Hrest].
Qed.

End Folding.

Lemma parse_input_result_witness :
  token (txt "phone")
  /\ casefold (fun c => [c]) (txt "phone") = txt "phone"
  /\ (if str_in (txt "phone") [txt "close"; txt "exit"]
      then [txt "bob"] = [farewell (txt "phone")]
      else Forall token [txt "bob"]).
Proof.
  apply (parse_input_result (fun c => [c])) with (line := txt "  PHONE   bob ").
  - discriminate.
  - intros c _ H. cbn. now rewrite H.
  - intros c H. cbn. unfold fold_char.
    destruct (N.ltb_spec c 0x80); [lia | reflexivity].
  - reflexivity.
Defined.

(** ** From the line to the dictionary and back *)

Lemma execute_command_add (self : CliHelperBot) (args : list str) (cache : dict) :
  constructed self ->
  execute_command self (txt "add") args cache = add_contact self args cache.
Proof.
  intros Hself. unfold execute_command, execute_command_body.
  rewrite (constructed_table self Hself).
  change (table_get (supported_commands cli_helper) (txt "add"))
    with (Some m_add_contact).
  cbn [call]. apply input_error_absorbs.
Qed.

Lemma execute_command_phone (self : CliHelperBot) (args : list str) (cache : dict) :
  constructed self ->
  execute_command self (txt "phone") args cache = get_contact self args cache.
Proof.
  intros Hself. unfold execute_command, execute_command_body.
  rewrite (constructed_table self Hself).
  change (table_get (supported_commands cli_helper) (txt "phone"))
    with (Some m_get_contact).
  cbn [call]. apply input_error_absorbs.
Qed.

Lemma token_add : token (txt "add").
Proof. split; [discriminate | reflexivity]. Qed.

Lemma token_phone : token (txt "phone").
Proof. split; [discriminate | reflexivity]. Qed.

(** X16. For a user name and a phone that are words, and a user that is
    not yet present, typing [add u p], [phone u] and [exit] prints the
    confirmation, the record with that phone and the farewell, stops, and
    leaves the dictionary with the user added. *)
Theorem add_then_phone_console
        (fold_table : char -> str)
        (self : CliHelperBot) (cache : dict) (u p : str) :
  constructed self -> token u -> token p ->
  Dict.contains cache u = false ->
  main fold_table self
    [join (txt " ") [txt "add"; u; p]; join (txt " ") [txt "phone"; u]; txt "exit"]
    cache
    = {| console :=
           [Prompt prompt;
            Print (txt "Command 'add' executed successfully. Result is:" ++ nl
                   ++ txt "Contact " ++ u ++ txt " created with phone: " ++ p
                   ++ txt ".");
            Prompt prompt;
            Print (txt "Command 'phone' executed successfully. Result is:" ++ nl
                   ++ txt "Record found: " ++ nl
                   ++ txt "User " ++ u ++ txt " phone: " ++ p);
            Prompt prompt;
            Print (txt "Command 'exit' received. Good buy!")];
         status := Stopped;
         cache_after := setitem cache u p |}.
Proof.
  intros Hself Hu Hp Hnew.
  assert (Hadd : turn fold_table self (join (txt " ") [txt "add"; u; p]) cache
                 = (setitem cache u p,
                    Return (txt "Command 'add' executed successfully. Result is:"
                            ++ nl ++ txt "Contact " ++ u
                            ++ txt " created with phone: " ++ p ++ txt "."))).
  { assert (Hparse : parse_input fold_table (join (txt " ") [txt "add"; u; p])
                     = Return (txt "add", [u; p])).
    { rewrite (parse_input_cons fold_table _ (txt "add") [u; p]); [reflexivity|].
      apply split_join.
      repeat (apply Forall_cons; [first [assumption | apply token_add]|]).
      apply Forall_nil. }
    unfold turn, bind, lift. rewrite Hparse. cbn beta iota.
    rewrite (execute_command_add self _ _ Hself).
    rewrite add_contact_new by assumption. reflexivity. }
  assert (Hphone : turn fold_table self (join (txt " ") [txt "phone"; u])
                     (setitem cache u p)
                   = (setitem cache u p,
                      Return (txt "Command 'phone' executed successfully. Result is:"
                              ++ nl ++ txt "Record found: " ++ nl
                              ++ txt "User " ++ u ++ txt " phone: " ++ p))).
  { assert (Hparse : parse_input fold_table (join (txt " ") [txt "phone"; u])
                     = Return (txt "phone", [u])).
    { rewrite (parse_input_cons fold_table _ (txt "phone") [u]); [reflexivity|].
      apply split_join.
      repeat (apply Forall_cons; [first [assumption | apply token_phone]|]).
      apply Forall_nil. }
    unfold turn, bind, lift. rewrite Hparse. cbn beta iota.
    rewrite (execute_command_phone self _ _ Hself).
    run_handler. rewrite contains_setitem_same, getitem_setitem. reflexivity. }
  cbn [main]. rewrite Hadd. cbn [main]. rewrite Hphone. cbn [main].
  rewrite (constructed_unique self cli_helper Hself constructed_cli_helper).
  reflexivity.
Qed.

Lemma add_then_phone_console_witness :
  main (fun c => [c]) cli_helper
    [join (txt " ") [txt "add"; txt "bob"; txt "123"];
     join (txt " ") [txt "phone"; txt "bob"]; txt "exit"]
    Dict.empty
  = {| console :=
         [Prompt prompt;
          Print (txt "Command 'add' executed successfully. Result is:" ++ nl
                 ++ txt "Contact bob created with phone: 123.");
          Prompt prompt;
          Print (txt "Command 'phone' executed successfully. Result is:" ++ nl
                 ++ txt "Record found: " ++ nl ++ txt "User bob phone: 123");
          Prompt prompt;
          Print (txt "Command 'exit' received. Good buy!")];
       status := Stopped;
       cache_after := [(txt "bob", txt "123")] |}.
Proof.
  apply (add_then_phone_console (fun c => [c]) cli_helper Dict.empty
           (txt "bob") (txt "123")).
  - exists Dict.empty. reflexivity.
  - split; [discriminate | reflexivity].
  - split; [discriminate | reflexivity].
  - reflexivity.
Defined.

(** ** The listing is complete *)

Lemma getitem_In (d : dict) (k v : str) :
  getitem d k = Some v -> In (k, v) d.
Proof.
  induction d as [|[k' v'] d IH]; simpl; [discriminate|].
  destruct (str_eqb_spec k k') as [->|ne].
  - intros [= ->]. now left.
  - intros H. right. now apply IH.
Qed.

(** X17. Every contact that [phone] would find is in what [all] returns:
    when a user maps to a phone, the text of [all], with any arguments,
    contains the line [User u phone: p] of that user. *)
Theorem all_lists_every_contact
        (self : CliHelperBot) (cache : dict) (args : list str) (u p : str) :
  getitem cache u = Some p ->
  exists listing,
    print_all_contacts self args cache = (cache, Return listing)
    /\ str_contains (txt "User " ++ u ++ txt " phone: " ++ p) listing = true.
Proof.
  intros H. eexists. split; [apply print_all_contacts_text|].
  do 3 apply str_contains_app_r.
  apply record_lines_contains. now apply getitem_In.
Qed.

Lemma all_lists_every_contact_witness :
  exists listing,
    print_all_contacts cli_helper [txt "x"] [(txt "al", txt "1"); (txt "bob", txt "123")]
      = ([(txt "al", txt "1"); (txt "bob", txt "123")], Return listing)
    /\ str_contains (txt "User bob phone: 123") listing = true.
Proof.
  apply (all_lists_every_contact cli_helper
           [(txt "al", txt "1"); (txt "bob", txt "123")]
           [txt "x"] (txt "bob") (txt "123")).
  reflexivity.
Defined.

(** ** The last text on the console *)

Lemma str_in_stop_true (c : str) :
  str_in c [txt "close"; txt "exit"] = true -> c = txt "close" \/ c = txt "exit".
Proof.
  unfold str_in. cbn [existsb].
  destruct (str_eqb_spec c (txt "close")); [now left|].
  destruct (str_eqb_spec c (txt "exit")); [now right | discriminate].
Qed.

(** X18. The last thing [main] writes tells how it ended: the farewell
    [Command 'c' received. Good buy!] with [close] or [exit] for [c] when
    it stopped, and otherwise [Unknown exception was encountered during
    execution: ], the text of the exception it ended with, and [The bot
    will stop ...]. *)
Theorem main_last_print
        (fold_table : char -> str)
        (self : CliHelperBot) (stdin : list str) (cache : dict) :
  constructed self ->
  exists before,
    match status (main fold_table self stdin cache) with
    | Stopped =>
        exists c, (c = txt "close" \/ c = txt "exit")
                  /\ console (main fold_table self stdin cache)
                     = before
                       ++ [Print (txt "Command '" ++ c ++ txt "' received. Good buy!")]
    | Crashed cls e =>
        console (main fold_table self stdin cache)
          = before
            ++ [Print (txt "Unknown exception was encountered during execution: "
                       ++ e ++ txt "The bot will stop ...")]
    end.
Proof.
  intros Hself. revert cache.
  induction stdin as [|line stdin IH]; intros cache.
  - now exists [Prompt prompt].
  - cbn [main]. pose proof (turn_outcome fold_table self line cache Hself) as H.
    destruct (split line) as [|w rest].
    + rewrite H. now exists [Prompt prompt].
    + destruct (str_in (casefold fold_table w) [txt "close"; txt "exit"]) eqn:Hw.
      * rewrite H. exists [Prompt prompt]. exists (casefold fold_table w).
        split; [now apply str_in_stop_true | reflexivity].
      * destruct H as [text [_ ->]]. cbn [status console].
        destruct (IH (fst (execute_command self (casefold fold_table w) rest cache)))
          as [before Hb].
        exists (Prompt prompt
                  :: Print (txt "Command '" ++ casefold fold_table w
                            ++ txt "' executed successfully. Result is:"
                            ++ nl ++ text)
                  :: before).
        destruct (status (main fold_table self stdin
                            (fst (execute_command self (casefold fold_table w)
                                    rest cache)))).
        -- destruct Hb as [c [Hc ->]]. now exists c.
        -- now rewrite Hb.
Qed.

Lemma main_last_print_witness :
  exists before,
    match status (main (fun c => [c]) cli_helper [txt "hello"; txt "CLOSE"] Dict.empty) with
    | Stopped =>
        exists c, (c = txt "close" \/ c = txt "exit")
                  /\ console (main (fun c => [c]) cli_helper
                                [txt "hello"; txt "CLOSE"] Dict.empty)
                     = before
                       ++ [Print (txt "Command '" ++ c ++ txt "' received. Good buy!")]
    | Crashed cls e =>
        console (main (fun c => [c]) cli_helper [txt "hello"; txt "CLOSE"] Dict.empty)
          = before
            ++ [Print (txt "Unknown exception was encountered during execution: "
                       ++ e ++ txt "The bot will stop ...")]
    end.
Proof.
  apply (main_last_print (fun c => [c]) cli_helper [txt "hello"; txt "CLOSE"] Dict.empty).
  exists Dict.empty. reflexivity.
Defined.
